(** * Astro SSR: the render context ([createResult], [Slots]) and the
      build-time manifest plugin ([vitePluginSSR], [buildManifest])

    A shallow embedding of
    [packages/astro/src/core/build/vite-plugin-ssr.ts] and of the render
    context module that defines [createResult] and [Slots], with the
    properties the specification states about them. *)

From Stdlib Require Import ZArith Ascii String.
From Stdlib Require Import DecimalString DecimalZ DecimalPos DecimalFacts.
From stdpp Require Import gmap strings list fin_maps pretty.

Local Open Scope string_scope.
Local Open Scope list_scope.
Local Arguments String.append : simpl nomatch.

(** ** JavaScript values *)

Module JS.

(** A function object is known by its identity; what a call of it does is
    decided by the environment (see [Render.call]). *)
Definition fid := positive.

(** The values the modelled code inspects.  Numbers are the integers (the
    code compares a length with [1] and nothing else). *)
#[warnings="-register-all"]
Inductive value :=
| VUndefined
| VNull
| VBool (b : bool)
| VNum (n : Z)
| VStr (s : string)
| VFun (f : fid)
| VArr (elems : list value)
| VObj (props : list (string * value)).
Arguments VFun f%_positive.

(** What a [throw] carries. *)
Inductive error :=
| Error (message : string)
| TypeError (message : string)
| Thrown (v : value).

(** The outcome of evaluating an expression or running a function body. *)
Inductive completion (A : Type) :=
| Normal (a : A)
| Throw (e : error).
Arguments Normal {A} a.
Arguments Throw {A} e.

(** The characters a string literal of the source writes with an escape. *)
Definition double_quote : ascii := "034"%char.

Definition dquote : string := String double_quote EmptyString.

Definition newline : string := String "010"%char EmptyString.

Definition tab : string := String "009"%char EmptyString.

(** [Boolean(v)], the test of [if (v)] and [!v]. *)
Definition truthy (v : value) : bool :=
  match v with
  | VUndefined | VNull => false
  | VBool b => b
  | VNum n => negb (n =? 0)%Z
  | VStr s => negb (String.eqb s "")
  | VFun _ | VArr _ | VObj _ => true
  end.

(** Own string-keyed properties of a plain object, in property order. *)
Fixpoint assoc {A} (props : list (string * A)) (name : string) : option A :=
  match props with
  | [] => None
  | (k, v) :: rest => if String.eqb k name then Some v else assoc rest name
  end.

(** The identities of the built-in functions.  They are function objects
    like the others, and what a call of one does is for the environment
    to say; the identities from [2^32] on are set apart for them. *)
Definition builtin (n : positive) : fid := (n + 4294967296)%positive.

(** What every plain object inherits from [Object.prototype]: its
    methods, and the accessor [__proto__], which reads as the prototype
    itself, an object without enumerable properties. *)
Definition Object_prototype : list (string * value) :=
  [("constructor", VFun (builtin 1));
   ("__defineGetter__", VFun (builtin 2));
   ("__defineSetter__", VFun (builtin 3));
   ("hasOwnProperty", VFun (builtin 4));
   ("__lookupGetter__", VFun (builtin 5));
   ("__lookupSetter__", VFun (builtin 6));
   ("isPrototypeOf", VFun (builtin 7));
   ("propertyIsEnumerable", VFun (builtin 8));
   ("toString", VFun (builtin 9));
   ("valueOf", VFun (builtin 10));
   ("__proto__", VObj []);
   ("toLocaleString", VFun (builtin 11))].

(** [o[name]] on a plain object with the own properties [props]: the own
    property, else the one inherited from [Object.prototype], else
    [undefined]. *)
Definition get (props : list (string * value)) (name : string) : value :=
  match assoc props name with
  | Some v => v
  | None => default VUndefined (assoc Object_prototype name)
  end.

(** [Object.keys(o)]. *)
Definition Object_keys {A} (props : list (string * A)) : list string :=
  map fst props.

(** [v.name] for a property name that is not an index.  A function's own
    properties (its [length] is its arity) are not modelled: they read as
    [undefined]. *)
Definition get_prop (v : value) (name : string) : value :=
  match v with
  | VObj props => get props name
  | VArr elems =>
      if String.eqb name "length" then VNum (Z.of_nat (length elems))
      else VUndefined
  | VStr s =>
      if String.eqb name "length" then VNum (Z.of_nat (String.length s))
      else VUndefined
  | _ => VUndefined
  end.

(** [v?.length]. *)
Definition opt_length (v : value) : value :=
  match v with
  | VUndefined | VNull => VUndefined
  | _ => get_prop v "length"
  end.

(** [v[i]] for an index [i]. *)
Definition get_index (v : value) (i : nat) : value :=
  match v with
  | VArr elems => nth i elems VUndefined
  | VObj props => get props (pretty i)
  | VStr s =>
      match String.get i s with
      | Some c => VStr (String c EmptyString)
      | None => VUndefined
      end
  | _ => VUndefined
  end.

(** [v !== 1]. *)
Definition is_not_one (v : value) : bool :=
  match v with
  | VNum 1 => false
  | _ => true
  end.

(** [res != null], false exactly for [null] and [undefined]. *)
Definition not_nullish (v : value) : bool :=
  match v with
  | VUndefined | VNull => false
  | _ => true
  end.

(** An array index: the decimal text, without a leading zero, of an
    integer from [0] to [2^32 - 2]. *)
Definition array_index (key : string) : option N :=
  match NilEmpty.uint_of_string key with
  | Some u =>
      let n := N.of_uint u in
      if String.eqb (NilZero.string_of_uint (N.to_uint n)) key
         && (n <? 4294967295)%N
      then Some n else None
  | None => None
  end.

(** Property order: an object lists its array indices first, in
    ascending order, then its other keys in the order they were created
    in.  [comes_before key k]: a new property [key] goes before the
    property [k] the object already has. *)
Definition comes_before (key k : string) : bool :=
  match array_index key, array_index k with
  | Some i, Some j => (i <? j)%N
  | Some _, None => true
  | None, _ => false
  end.

(** The keys are in property order. *)
Fixpoint in_property_order (keys : list string) : bool :=
  match keys with
  | [] => true
  | k :: rest =>
      forallb (fun k' => negb (comes_before k' k)) rest && in_property_order rest
  end.

(** The keys of an object: distinct and in property order. *)
Definition own_keys (keys : list string) : bool :=
  bool_decide (NoDup keys) && in_property_order keys.

(** [props] with the value [v] for the property [key] it has. *)
Fixpoint overwrite {A} (props : list (string * A)) (key : string) (v : A)
  : option (list (string * A)) :=
  match props with
  | [] => None
  | (k, x) :: rest =>
      if String.eqb k key then Some ((k, v) :: rest)
      else option_map (cons (k, x)) (overwrite rest key v)
  end.

(** [props] with the new property [key] at its place in property order. *)
Fixpoint insert_prop {A} (props : list (string * A)) (key : string) (v : A)
  : list (string * A) :=
  match props with
  | [] => [(key, v)]
  | (k, x) :: rest =>
      if comes_before key k then (key, v) :: (k, x) :: rest
      else (k, x) :: insert_prop rest key v
  end.

(** [o[key] = v] on own properties: an existing property keeps its
    place, a new one goes to its place in property order.  The accessor
    [__proto__] is not modelled as a key to assign to. *)
Definition set_prop {A} (props : list (string * A)) (key : string) (v : A)
  : list (string * A) :=
  default (insert_prop props key v) (overwrite props key v).

(** The object on which [members] are defined one after the other. *)
Definition define_all {A} (members : list (string * A)) : list (string * A) :=
  fold_left (fun props e => set_prop props e.1 e.2) members [].

End JS.

(** ** [JSON.stringify] and [JSON.parse]

    The platform's two functions, over the values of [JS].  A string is a
    sequence of code units below 256; a number is an integer, written in
    plain decimal (fractions and exponents are outside the model, and
    [JSON_parse] refuses them).  [toJSON] methods are not modelled. *)

Module JSON.
Import JS.

(** *** Writing *)

Definition backslash : ascii := "092"%char.

Definition hex_digit (n : nat) : ascii :=
  nth n ["0"; "1"; "2"; "3"; "4"; "5"; "6"; "7"; "8"; "9";
         "a"; "b"; "c"; "d"; "e"; "f"]%char "0"%char.

(** One code unit inside a string literal: the quote, the backslash and
    the control characters are escaped, the rest is written as it is. *)
Definition escape_char (c : ascii) : string :=
  if Ascii.eqb c double_quote then String backslash (String double_quote "")
  else if Ascii.eqb c backslash then String backslash (String backslash "")
  else if Ascii.eqb c "008" then String backslash "b"
  else if Ascii.eqb c "012" then String backslash "f"
  else if Ascii.eqb c "010" then String backslash "n"
  else if Ascii.eqb c "013" then String backslash "r"
  else if Ascii.eqb c "009" then String backslash "t"
  else if Nat.ltb (nat_of_ascii c) 32 then
    String backslash
      (String "u" (String "0" (String "0"
        (String (hex_digit (nat_of_ascii c / 16))
          (String (hex_digit (nat_of_ascii c mod 16)) "")))))
  else String c "".

Fixpoint escape (s : string) : string :=
  match s with
  | EmptyString => ""
  | String c rest => escape_char c +:+ escape rest
  end.

(** The string literal for [s]. *)
Definition quote (s : string) : string :=
  String double_quote (escape s +:+ String double_quote "").

(** The text of an integer: its decimal digits, after a minus sign when
    it is negative. *)
Definition print_Z (n : Z) : string := NilZero.string_of_int (Z.to_int n).

(** [JSON.stringify(v)]; [None] is [undefined].  In an array a value
    without a JSON text is written [null]; in an object its property is
    left out. *)
Fixpoint stringify (v : value) : option string :=
  match v with
  | VUndefined | VFun _ => None
  | VNull => Some "null"
  | VBool b => Some (if b then "true" else "false")
  | VNum n => Some (print_Z n)
  | VStr s => Some (quote s)
  | VArr elems =>
      Some ("[" +:+
            String.concat "," (map (fun x => default "null" (stringify x)) elems)
            +:+ "]")
  | VObj props =>
      Some ("{" +:+
            String.concat ","
              (flat_map (fun kv => match stringify kv.2 with
                                   | Some t => [quote kv.1 +:+ ":" +:+ t]
                                   | None => []
                                   end) props)
            +:+ "}")
  end.

(** *** Reading *)

Definition hex_value (c : ascii) : option nat :=
  let n := nat_of_ascii c in
  if Nat.leb 48 n && Nat.leb n 57 then Some (n - 48)
  else if Nat.leb 97 n && Nat.leb n 102 then Some (n - 87)
  else if Nat.leb 65 n && Nat.leb n 70 then Some (n - 55)
  else None.

(** The code unit of [\uabcd]; one above 255 is outside the model. *)
Definition unicode_escape (a b c d : ascii) : option ascii :=
  match hex_value a, hex_value b, hex_value c, hex_value d with
  | Some 0, Some 0, Some h, Some l => Some (ascii_of_nat (16 * h + l))
  | _, _, _, _ => None
  end.

(** The code unit of the two-character escape that ends in [e]. *)
Definition simple_escape (e : ascii) : option ascii :=
  if Ascii.eqb e double_quote then Some double_quote
  else if Ascii.eqb e backslash then Some backslash
  else if Ascii.eqb e "/" then Some "/"%char
  else if Ascii.eqb e "b" then Some "008"%char
  else if Ascii.eqb e "f" then Some "012"%char
  else if Ascii.eqb e "n" then Some "010"%char
  else if Ascii.eqb e "r" then Some "013"%char
  else if Ascii.eqb e "t" then Some "009"%char
  else None.

Definition prepend (c : ascii) (r : option (string * string))
  : option (string * string) :=
  match r with
  | Some (str, rest) => Some (String c str, rest)
  | None => None
  end.

(** The rest of a string literal, after its opening quote: the string
    and the text after the closing quote.  A control character that is
    not escaped is an error. *)
Fixpoint parse_string (s : string) : option (string * string) :=
  match s with
  | EmptyString => None
  | String c r =>
      if Ascii.eqb c double_quote then Some ("", r)
      else if Ascii.eqb c backslash then
        match r with
        | EmptyString => None
        | String e r1 =>
            if Ascii.eqb e "u" then
              match r1 with
              | String a (String b (String c (String d r2))) =>
                  match unicode_escape a b c d with
                  | Some ch => prepend ch (parse_string r2)
                  | None => None
                  end
              | _ => None
              end
            else
              match simple_escape e with
              | Some ch => prepend ch (parse_string r1)
              | None => None
              end
        end
      else if Nat.ltb (nat_of_ascii c) 32 then None
      else prepend c (parse_string r)
  end.

Definition digit_of (c : ascii) : option (Decimal.uint -> Decimal.uint) :=
  if Ascii.eqb c "0" then Some Decimal.D0
  else if Ascii.eqb c "1" then Some Decimal.D1
  else if Ascii.eqb c "2" then Some Decimal.D2
  else if Ascii.eqb c "3" then Some Decimal.D3
  else if Ascii.eqb c "4" then Some Decimal.D4
  else if Ascii.eqb c "5" then Some Decimal.D5
  else if Ascii.eqb c "6" then Some Decimal.D6
  else if Ascii.eqb c "7" then Some Decimal.D7
  else if Ascii.eqb c "8" then Some Decimal.D8
  else if Ascii.eqb c "9" then Some Decimal.D9
  else None.

(** The digits [s] starts with, and the text after them. *)
Fixpoint parse_digits (s : string) : Decimal.uint * string :=
  match s with
  | EmptyString => (Decimal.Nil, "")
  | String c r =>
      match digit_of c with
      | Some d => let (u, rest) := parse_digits r in (d u, rest)
      | None => (Decimal.Nil, s)
      end
  end.

Definition starts_fraction (s : string) : bool :=
  match s with
  | String c _ => Ascii.eqb c "." || Ascii.eqb c "e" || Ascii.eqb c "E"
  | EmptyString => false
  end.

(** Digits without a leading zero, not followed by a fraction or an
    exponent. *)
Definition parse_unsigned (s : string) : option (Decimal.uint * string) :=
  let (u, rest) := parse_digits s in
  if starts_fraction rest then None
  else
    match u with
    | Decimal.Nil => None
    | Decimal.D0 Decimal.Nil => Some (u, rest)
    | Decimal.D0 _ => None
    | _ => Some (u, rest)
    end.

(** A number.  [-0] is not an integer and is refused. *)
Definition parse_number (s : string) : option (Z * string) :=
  match s with
  | String c r =>
      if Ascii.eqb c "-" then
        match parse_unsigned r with
        | Some (Decimal.D0 Decimal.Nil, _) => None
        | Some (u, rest) => Some (Z.of_int (Decimal.Neg u), rest)
        | None => None
        end
      else
        match parse_unsigned s with
        | Some (u, rest) => Some (Z.of_int (Decimal.Pos u), rest)
        | None => None
        end
  | EmptyString => None
  end.

Definition is_whitespace (c : ascii) : bool :=
  Ascii.eqb c " " || Ascii.eqb c "009" || Ascii.eqb c "010" || Ascii.eqb c "013".

Fixpoint skip_ws (s : string) : string :=
  match s with
  | String c r => if is_whitespace c then skip_ws r else s
  | EmptyString => ""
  end.

(** [s] without its prefix [p], when it has that prefix. *)
Fixpoint strip_prefix (p s : string) : option string :=
  match p, s with
  | EmptyString, _ => Some s
  | String a p', String b s' => if Ascii.eqb a b then strip_prefix p' s' else None
  | String _ _, EmptyString => None
  end.

Definition literal {A} (word : string) (a : A) (s : string) : option (A * string) :=
  match strip_prefix word s with
  | Some rest => Some (a, rest)
  | None => None
  end.

(** A value, the elements of an array after its bracket, the members of
    an object after its brace: what was read and the text after it.  The
    fuel bounds the depth of the recursion; [JSON_parse] gives enough for
    any text.  A key that occurs twice keeps its first place and takes
    the last value. *)
Fixpoint parse_value (fuel : nat) (s : string) : option (value * string) :=
  match fuel with
  | 0 => None
  | S fuel =>
      match skip_ws s with
      | EmptyString => None
      | String c r =>
          if Ascii.eqb c "n" then literal "ull" VNull r
          else if Ascii.eqb c "t" then literal "rue" (VBool true) r
          else if Ascii.eqb c "f" then literal "alse" (VBool false) r
          else if Ascii.eqb c double_quote then
            match parse_string r with
            | Some (str, rest) => Some (VStr str, rest)
            | None => None
            end
          else if Ascii.eqb c "[" then
            match skip_ws r with
            | String "]" rest => Some (VArr [], rest)
            | _ =>
                match parse_elements fuel r with
                | Some (elems, rest) => Some (VArr elems, rest)
                | None => None
                end
            end
          else if Ascii.eqb c "{" then
            match skip_ws r with
            | String "}" rest => Some (VObj [], rest)
            | _ =>
                match parse_members fuel r with
                | Some (members, rest) => Some (VObj (define_all members), rest)
                | None => None
                end
            end
          else
            match parse_number (String c r) with
            | Some (n, rest) => Some (VNum n, rest)
            | None => None
            end
      end
  end
with parse_elements (fuel : nat) (s : string) : option (list value * string) :=
  match fuel with
  | 0 => None
  | S fuel =>
      match parse_value fuel s with
      | Some (v, r) =>
          match skip_ws r with
          | String c r' =>
              if Ascii.eqb c "," then
                match parse_elements fuel r' with
                | Some (elems, rest) => Some (v :: elems, rest)
                | None => None
                end
              else if Ascii.eqb c "]" then Some ([v], r')
              else None
          | EmptyString => None
          end
      | None => None
      end
  end
with parse_members (fuel : nat) (s : string)
  : option (list (string * value) * string) :=
  match fuel with
  | 0 => None
  | S fuel =>
      match skip_ws s with
      | String q r =>
          if Ascii.eqb q double_quote then
            match parse_string r with
            | Some (key, r1) =>
                match skip_ws r1 with
                | String colon r2 =>
                    if Ascii.eqb colon ":" then
                      match parse_value fuel r2 with
                      | Some (v, r3) =>
                          match skip_ws r3 with
                          | String c r4 =>
                              if Ascii.eqb c "," then
                                match parse_members fuel r4 with
                                | Some (members, rest) =>
                                    Some ((key, v) :: members, rest)
                                | None => None
                                end
                              else if Ascii.eqb c "}" then Some ([(key, v)], r4)
                              else None
                          | EmptyString => None
                          end
                      | None => None
                      end
                    else None
                | EmptyString => None
                end
            | None => None
            end
          else None
      | EmptyString => None
      end
  end.

(** [JSON.parse(text)]; [None] is a [SyntaxError]. *)
Definition JSON_parse (text : string) : option value :=
  match parse_value (S (String.length text)) text with
  | Some (v, rest) =>
      match skip_ws rest with
      | EmptyString => Some v
      | String _ _ => None
      end
  | None => None
  end.

(** *** What a round trip gives back *)

(** The value [JSON.parse(JSON.stringify(v))] is, when [v] has a JSON
    text. *)
Fixpoint image (v : value) : option value :=
  match v with
  | VUndefined | VFun _ => None
  | VArr elems => Some (VArr (map (fun x => default VNull (image x)) elems))
  | VObj props =>
      Some (VObj (flat_map (fun kv => match image kv.2 with
                                      | Some y => [(kv.1, y)]
                                      | None => []
                                      end) props))
  | _ => Some v
  end.

(** Every object in [v] has distinct keys in property order, as every
    object has. *)
Fixpoint well_formed (v : value) : bool :=
  match v with
  | VArr elems => forallb (fun x => well_formed x) elems
  | VObj props =>
      own_keys (map fst props) &&
      forallb (fun kv => well_formed kv.2) props
  | _ => true
  end.

(** [v] is JSON data: built from [null], booleans, numbers, strings,
    arrays and objects only. *)
Fixpoint json_data (v : value) : bool :=
  match v with
  | VUndefined | VFun _ => false
  | VArr elems => forallb (fun x => json_data x) elems
  | VObj props =>
      own_keys (map fst props) &&
      forallb (fun kv => json_data kv.2) props
  | _ => true
  end.

(** The text after a value in an array or an object, or the end. *)
Definition delimited (rest : string) : bool :=
  match rest with
  | EmptyString => true
  | String c _ => Ascii.eqb c "," || Ascii.eqb c "]" || Ascii.eqb c "}"
  end.

(** The text starts like a value. *)
Definition starts_value (s : string) : bool :=
  match s with
  | EmptyString => false
  | String c _ =>
      existsb (Ascii.eqb c)
        ["n"; "t"; "f"; double_quote; "["; "{"; "-";
         "0"; "1"; "2"; "3"; "4"; "5"; "6"; "7"; "8"; "9"]%char
  end.

(** The text and the value of an array element. *)
Definition elem_text (v : value) : string := default "null" (stringify v).

Definition elem_image (v : value) : value := default VNull (image v).

(** Reading the text of [v], whatever follows it, gives the image of [v]
    and what follows. *)
Definition roundtrips (v : value) : Prop :=
  forall fuel rest,
    String.length (elem_text v) < fuel -> delimited rest = true ->
    parse_value fuel (elem_text v +:+ rest) = Some (elem_image v, rest).

(** The properties [JSON.stringify] writes, their text and their value. *)
Definition kept (props : list (string * value)) : list (string * value) :=
  filter (fun kv => is_Some (stringify kv.2)) props.

Definition member_text (kv : string * value) : string :=
  quote kv.1 +:+ ":" +:+ elem_text kv.2.

Definition member_image (kv : string * value) : string * value :=
  (kv.1, elem_image kv.2).

(** Induction on a value, with the property for the elements of an array
    and for the property values of an object. *)
Section value_ind.
Variable P : value -> Prop.
Hypothesis Hundef : P VUndefined.
Hypothesis Hnull : P VNull.
Hypothesis Hbool : forall b, P (VBool b).
Hypothesis Hnum : forall n, P (VNum n).
Hypothesis Hstr : forall s, P (VStr s).
Hypothesis Hfun : forall f, P (VFun f).
Hypothesis Harr : forall elems, Forall P elems -> P (VArr elems).
Hypothesis Hobj : forall props, Forall (fun kv => P kv.2) props -> P (VObj props).

Fixpoint value_ind' (v : value) : P v :=
  match v with
  | VUndefined => Hundef
  | VNull => Hnull
  | VBool b => Hbool b
  | VNum n => Hnum n
  | VStr s => Hstr s
  | VFun f => Hfun f
  | VArr elems =>
      Harr elems
        ((fix go (l : list value) : Forall P l :=
            match l with
            | [] => List.Forall_nil P
            | x :: l' => @List.Forall_cons _ P x l' (value_ind' x) (go l')
            end) elems)
  | VObj props =>
      Hobj props
        ((fix go (l : list (string * value)) : Forall (fun kv => P kv.2) l :=
            match l with
            | [] => List.Forall_nil _
            | kv :: l' =>
                @List.Forall_cons _ (fun kv => P kv.2) kv l' (value_ind' kv.2) (go l')
            end) props)
  end.
End value_ind.

End JSON.

(** ** The render context: [createResult] and [Slots] *)

Module Render.
Import JS.

(** *** The environment

    The module calls code it does not define: the slot functions a
    template passes in, [renderSlot] of the server runtime, the logger's
    [warn].  Each such call is an event.  The history of events so far is
    the only state of the environment: what a call answers is a function
    of the history before it.  All [await]s are taken in program order;
    two calls of [render] on one object overlap only if the caller does
    not await the first, which "consecutive" excludes. *)
Inductive event :=
| EvCall (f : fid) (args : list value)
| EvRenderSlot (slotted : value)
| EvWarn (logging : value) (label message : string).
Arguments EvCall f%_positive args.

Definition history := list event.

(** Computations: a history transformer with an outcome.  A [Throw] stops
    the computation; the events before it stay in the history. *)
Definition M (A : Type) : Type := history -> completion A * history.

Definition ret {A} (a : A) : M A := fun h => (Normal a, h).

Definition throw {A} (e : error) : M A := fun h => (Throw e, h).

Definition bind {A B} (m : M A) (k : A -> M B) : M B :=
  fun h =>
    match m h with
    | (Normal a, h') => k a h'
    | (Throw e, h') => (Throw e, h')
    end.

Notation "'do' x <- m ; k" := (bind m (fun x => k))
  (at level 10, x name, m at level 100, k at level 200).

(** *** What the module imports

    [renderSlot] (server runtime), [warn] (logger), [bold] (kleur),
    [createCanonicalURL], [isCSSRequest] (render utilities),
    [isScriptRequest] and the platform's [URL] and [String] are not
    defined in this module: they are parameters of the development. *)
Section Environment.

(** What the call [f(...args)] completes with after history [h]; where
    the code awaits the call, the completion of the [await]. *)
Variable call_result : history -> fid -> list value -> completion value.

(** What [await renderSlot(result, slotted)] completes with. *)
Variable renderSlot_result : history -> value -> completion value.

(** [String(v)]. *)
Variable String_ : value -> string.

(** [bold(s)]. *)
Variable bold : string -> string.

Variable isCSSRequest : string -> bool.
Variable isScriptRequest : string -> bool.

(** [new URL(s).origin]; a string that is not an absolute URL throws. *)
Variable URL_origin : string -> completion string.

(** [createCanonicalURL(url, base)]. *)
Variable createCanonicalURL : string -> string -> completion value.

(** [v(...args)]: only a function object can be called. *)
Definition call (v : value) (args : list value) : M value :=
  match v with
  | VFun f => fun h => (call_result h f args, h ++ [EvCall f args])
  | _ => throw (TypeError "is not a function")
  end.

(** Modelled from the spec: [warn] of the logger, a "logging sink" that
    "accepts a severity/category/message triple"; the call takes the
    message and returns nothing ("deprecated resolve calls never fail;
    they warn and return an empty string"). *)
Definition warn (logging : value) (label message : string) : M unit :=
  fun h => (Normal tt, h ++ [EvWarn logging label message]).

(** [function onlyAvailableInSSR(name)]: the function it returns throws
    when it is called, whatever it is called with. *)
Definition onlyAvailableInSSR {A B} (name : string) : A -> M B :=
  fun _ =>
    throw (Error ("Oops, you are trying to use " +:+ name +:+
                  ", which is only available with SSR.")).

(** [interface CreateResultArgs].  Sets are kept in insertion order. *)
Record CreateResultArgs := {
  ssr : bool;
  legacyBuild : bool;
  logging : value;
  origin : string;
  markdownRender : value;
  params : value;
  pathname : string;
  renderers : list value;
  resolve : value;
  site : option string;
  links : option (list value);
  scripts : option (list value);
  request_url : string;
}.

(** The [SSRResult] object of [createResult].  Its [createAstro] method is
    the function [createAstro] below, which takes the object as its first
    argument; the variables the method closes over ([args], and
    [canonicalURL], computed once) are fields here. *)
Record SSRResult := {
  result_styles : list value;
  result_scripts : list value;
  result_links : list value;
  result_resolve : value;
  metadata_renderers : list value;
  metadata_pathname : string;
  metadata_legacyBuild : bool;
  closure_args : CreateResultArgs;
  closure_canonicalURL : value;
}.

(** [renderSlot(result, slotted)], awaited. *)
Definition renderSlot (result : SSRResult) (slotted : value) : M value :=
  fun h => (renderSlot_result h slotted, h ++ [EvRenderSlot slotted]).

(** [function getFunctionExpression(slot)]. *)
Definition getFunctionExpression (slot : value) : value :=
  if negb (truthy slot) then VUndefined
  else if is_not_one (opt_length (get_prop slot "expressions")) then VUndefined
  else get_index (get_prop slot "expressions") 0.

(** [.then((res) => (res != null ? String(res) : res))]. *)
Definition stringify_result (res : value) : value :=
  if not_nullish res then VStr (String_ res) else res.

(** *** [class Slots] *)

(** The private fields [#cache], [#result] and [#slots], and the names of
    the own properties the constructor has defined (each a getter that
    returns [true]). *)
Record Slots := {
  cache : gmap string value;
  result : SSRResult;
  slots : option (list (string * value));
  own_properties : list string;
}.

(** The properties a new [Slots] object inherits: those of
    [Slots.prototype], then those of [Object.prototype]. *)
Definition inherited_properties : list string :=
  [ "constructor"; "has"; "render";
    "__defineGetter__"; "__defineSetter__"; "hasOwnProperty";
    "__lookupGetter__"; "__lookupSetter__"; "isPrototypeOf";
    "propertyIsEnumerable"; "toString"; "valueOf"; "__proto__";
    "toLocaleString" ].

(** [(this as any)[key] !== undefined] on an object with the own
    properties [own]. *)
Definition this_defines (own : list string) (key : string) : bool :=
  existsb (String.eqb key) own || existsb (String.eqb key) inherited_properties.

Definition reserved_slot_message (key : string) : string :=
  "Unable to create a slot named " +:+ dquote +:+ key +:+ dquote +:+ ". " +:+
  dquote +:+ key +:+ dquote +:+ " is a reserved slot name!" +:+
  newline +:+ "Please update the name of this slot.".

(** The loop of the constructor over [Object.keys(slots)]. *)
Fixpoint define_slot_properties (own : list string) (keys : list string)
  : completion (list string) :=
  match keys with
  | [] => Normal own
  | key :: rest =>
      if this_defines own key then Throw (Error (reserved_slot_message key))
      else define_slot_properties (own ++ [key]) rest
  end.

(** [constructor(result, slots)].  It calls nothing outside the class, so
    it is a function of its arguments alone. *)
Definition Slots_constructor (result : SSRResult)
    (slots : option (list (string * value))) : completion Slots :=
  match slots with
  | None =>
      Normal {| cache := ∅; result := result; slots := None;
                own_properties := [] |}
  | Some m =>
      match define_slot_properties [] (Object_keys m) with
      | Normal own =>
          Normal {| cache := ∅; result := result; slots := Some m;
                    own_properties := own |}
      | Throw e => Throw e
      end
  end.

(** [has(name)].  [this.#slots[name]] also finds what the slot map
    inherits from [Object.prototype]. *)
Definition has (this : Slots) (name : string) : bool :=
  match slots this with
  | None => false
  | Some m => truthy (get m name)
  end.

(** The object [this] with [c] for its [#cache]. *)
Definition with_cache (this : Slots) (c : gmap string value) : Slots :=
  {| cache := c; result := result this; slots := slots this;
     own_properties := own_properties this |}.

(** [this.#cache.set(name, content)]. *)
Definition cache_set (this : Slots) (name : string) (content : value) : Slots :=
  with_cache this (<[name := content]> (cache this)).

(** [async render(name, args = [])].  The object is passed in and the
    object after the call is returned with the result; only [#cache]
    can differ.  A call that throws has not reached the one statement
    that writes the cache. *)
Definition render (this : Slots) (name : string) (args : list value)
  : M (value * Slots) :=
  let cacheable := Nat.eqb (length args) 0 in
  match slots this with
  | None => ret (VUndefined, this)
  | Some m =>
      if cacheable && bool_decide (is_Some (cache this !! name)) then
        ret (default VUndefined (cache this !! name), this)
      else if negb (has this name) then ret (VUndefined, this)
      else
        do early <-
          (if negb cacheable then
             do component <- call (get m name) [];
             let expression := getFunctionExpression component in
             if truthy expression then
               do slot <- call expression args;
               do res <- renderSlot (result this) slot;
               ret (Some (stringify_result res))
             else ret None
           else ret None);
        match early with
        | Some returned => ret (returned, this)
        | None =>
            do res <- renderSlot (result this) (get m name);
            let content := stringify_result res in
            ret (content, if cacheable then cache_set this name content else this)
        end
  end.

(** *** [createResult] and the [Astro] object *)

(** The part of a [Response] the code sets: [new Response(body, init)]. *)
Record Response := {
  body : option string;
  status : Z;
  headers : list (string * string);
}.

(** [response.headers.get(name)]. *)
Definition header (r : Response) (name : string) : option string :=
  assoc (headers r) name.

(** The [Astro] object a template sees.  [redirect] and [resolve] are
    functions: building the object runs neither.  The hidden
    [__renderMarkdown] property is left out. *)
Record AstroGlobal := {
  Astro_proto : value;
  Astro_canonicalURL : value;
  Astro_params : value;
  Astro_props : value;
  Astro_request_url : string;
  Astro_redirect : string -> M Response;
  Astro_resolve : string -> M value;
  Astro_slots : Slots;
}.

(** The guidance the deprecation warning gives for [path]. *)
Definition resolve_guidance (path : string) : string :=
  if isCSSRequest path then
    "It looks like you are resolving styles. If you are adding a link tag, replace with this:"
    +:+ newline +:+ "---" +:+ newline +:+
    "import " +:+ dquote +:+ path +:+ dquote +:+ ";" +:+ newline +:+
    "---" +:+ newline
  else if isScriptRequest path then
    "It looks like you are resolving scripts. If you are adding a script tag, replace with this:"
    +:+ newline +:+ newline +:+
    "<script type=" +:+ dquote +:+ "module" +:+ dquote +:+
    " src={(await import(" +:+ dquote +:+ path +:+ "?url" +:+ dquote +:+
    ")).default}></script>" +:+ newline +:+ newline +:+
    "or consider make it a module like so:" +:+ newline +:+ newline +:+
    "<script>" +:+ newline +:+
    tab +:+ "import MyModule from " +:+ dquote +:+ path +:+ dquote +:+ ";" +:+ newline +:+
    "</script>" +:+ newline
  else
    "This can be replaced with a dynamic import like so: await import("
    +:+ dquote +:+ path +:+ dquote +:+ ")".

Definition deprecation_message (path : string) : string :=
  bold "Astro.resolve()" +:+
  " is deprecated. We see that you are trying to resolve " +:+ path +:+ "." +:+
  newline +:+ resolve_guidance path.

(** [export function createResult(args)].  [new URL(request.url)] runs
    before [site ?? url.origin] is looked at. *)
Definition createResult (args : CreateResultArgs) : completion SSRResult :=
  match URL_origin (request_url args) with
  | Throw e => Throw e
  | Normal url_origin =>
      match createCanonicalURL ("." +:+ pathname args)
                               (default url_origin (site args)) with
      | Throw e => Throw e
      | Normal canonicalURL =>
          Normal {| result_styles := [];
                    result_scripts := default [] (scripts args);
                    result_links := default [] (links args);
                    result_resolve := resolve args;
                    metadata_renderers := renderers args;
                    metadata_pathname := pathname args;
                    metadata_legacyBuild := legacyBuild args;
                    closure_args := args;
                    closure_canonicalURL := canonicalURL |}
      end
  end.

(** The [redirect] property of the [Astro] object. *)
Definition redirect (args : CreateResultArgs) : string -> M Response :=
  if ssr args then
    fun path =>
      ret {| body := None; status := 301; headers := [("Location", path)] |}
  else onlyAvailableInSSR "Astro.redirect".

(** The [resolve(path)] method of the [Astro] object. *)
Definition resolve_shim (args : CreateResultArgs) (astroGlobal : value)
    (path : string) : M value :=
  if negb (legacyBuild args) then
    do _ <- warn (logging args) "deprecation" (deprecation_message path);
    ret (VStr "")
  else call (get_prop astroGlobal "resolve") [VStr path].

(** [result.createAstro(astroGlobal, props, slots)]. *)
Definition createAstro (result : SSRResult) (astroGlobal props : value)
    (slots : option (list (string * value))) : completion AstroGlobal :=
  let args := closure_args result in
  match Slots_constructor result slots with
  | Throw e => Throw e
  | Normal astroSlots =>
      Normal {| Astro_proto := astroGlobal;
                Astro_canonicalURL := closure_canonicalURL result;
                Astro_params := params args;
                Astro_props := props;
                Astro_request_url := request_url args;
                Astro_redirect := redirect args;
                Astro_resolve := resolve_shim args astroGlobal;
                Astro_slots := astroSlots |}
  end.

End Environment.
End Render.

(** ** The SSR build plugin: [buildManifest] and [generateBundle] *)

Module Plugin.
Import JS.

Definition virtualModuleId : string := "@astrojs-ssr-virtual-entry".

Definition resolvedVirtualModuleId : string :=
  String "000"%char virtualModuleId.

Definition manifestReplace : string := "@@ASTRO_MANIFEST_REPLACE@@".

(** *** Objects shared with the caller

    [buildManifest] is handed references to objects the build owns (the
    [Map] of the internals, the [Set]s of each page) and gives back
    references to objects it creates and then updates (the script arrays,
    the entry-module record).  These objects live in a store, under their
    identity.  A [Map] and a [Set] keep insertion order; a record lists
    its keys in property order. *)
Definition loc := positive.

Inductive object :=
| OMap (entries : list (string * string))
| OSet (elems : list string)
| OArray (elems : list string)
| ODict (props : list (string * string)).

(** Computations that read and update the store. *)
Definition St (A : Type) : Type := gmap loc object -> A * gmap loc object.

Definition pure {A} (a : A) : St A := fun σ => (a, σ).

Definition seq {A B} (m : St A) (k : A -> St B) : St B :=
  fun σ => let (a, σ') := m σ in k a σ'.

Notation "'let*' x := m 'in' k" := (seq m (fun x => k))
  (at level 10, x name, m at level 100, k at level 200).

(** A new object: its identity is one the store does not use. *)
Definition alloc (o : object) : St loc :=
  fun σ => let l := fresh (dom σ) in (l, <[l := o]> σ).

(** [map.entries()]. *)
Definition Map_entries (m : loc) : St (list (string * string)) :=
  fun σ => (match σ !! m with Some (OMap entries) => entries | _ => [] end, σ).

(** [set.values()]. *)
Definition Set_values (set : loc) : St (list string) :=
  fun σ => (match σ !! set with Some (OSet elems) => elems | _ => [] end, σ).

(** [Array.from(set)]: a new array with the elements of the set. *)
Definition Array_from (set : loc) : St loc :=
  let* elems := Set_values set in
  alloc (OArray elems).

(** [array.unshift(x)]: updates the array in place. *)
Definition Array_unshift (array : loc) (x : string) : St unit :=
  fun σ =>
    (tt, match σ !! array with
         | Some (OArray elems) => <[array := OArray (x :: elems)]> σ
         | _ => σ
         end).

(** [Object.fromEntries(entries)]: a new object, the entries defined on
    it one after the other. *)
Definition Object_fromEntries (entries : list (string * string)) : St loc :=
  alloc (ODict (define_all entries)).

(** [o[key] = v]: updates the object in place. *)
Definition Object_set (o : loc) (key v : string) : St unit :=
  fun σ =>
    (tt, match σ !! o with
         | Some (ODict props) => <[o := ODict (set_prop props key v)]> σ
         | _ => σ
         end).

(** *** The build's data *)

(** Modelled from the spec: [PageBuildData] (declared with the build
    internals), "per-route accumulation of hoisted script reference, set
    of additional script references, set of css link references, and
    route descriptor". *)
Record PageBuildData := {
  route : value;
  css : loc;
  hoistedScript : option string;
  scripts : loc;
}.

(** Modelled from the spec: [BuildInternals] and [eachPageData], which
    "iterates every page's build data in a stable, build-internals-defined
    order"; the internals hold the "specifier→bundle-reference table". *)
Record BuildInternals := {
  pageData : list PageBuildData;
  entrySpecifierToBundleMap : loc;
}.

Definition eachPageData (internals : BuildInternals) : list PageBuildData :=
  pageData internals.

(** The fields of [opts.astroConfig] the function reads, [site] and
    [markdown]. *)
Record AstroConfig := {
  config_site : option string;
  config_markdown : value;
}.

Record StaticBuildOptions := {
  astroConfig : AstroConfig;
}.

(** An element of [routes]; [route_scripts] is its [scripts] field.  The
    two arrays are references into the store. *)
Record SerializedRouteInfo := {
  file : string;
  links : loc;
  route_scripts : loc;
  routeData : value;
}.

(** The manifest; [markdown_render] is the array [markdown.render], and
    [entryModules] a reference into the store. *)
Record SerializedSSRManifest := {
  routes : list SerializedRouteInfo;
  site : option string;
  markdown_render : list value;
  pageMap : value;
  renderers : list value;
  entryModules : loc;
}.

Definition no_before_hydration_script : string :=
  "data:text/javascript;charset=utf-8,//[no before-hydration script]".

(** *** What the plugin is given by the bundler *)

(** An entry of the bundle: an asset, or a chunk with the identifiers of
    the modules it contains and its code. *)
Inductive output :=
| Asset (source : string)
| Chunk (modules : list string) (code : string).

(** [chunk.modules[id]], as a condition. *)
Definition has_module (modules : list string) (id : string) : bool :=
  existsb (String.eqb id) modules.

(** *** The manifest as [JSON.stringify] walks it *)

(** The value of the object a reference leads to.  A [Set] or a [Map] has
    no own enumerable property. *)
Definition object_value (σ : gmap loc object) (l : loc) : value :=
  match σ !! l with
  | Some (OArray elems) => VArr (map VStr elems)
  | Some (ODict props) => VObj (map (fun kv => (kv.1, VStr kv.2)) props)
  | Some (OSet _) | Some (OMap _) => VObj []
  | None => VUndefined
  end.

Definition route_value (σ : gmap loc object) (info : SerializedRouteInfo) : value :=
  VObj [("file", VStr (file info));
        ("links", object_value σ (links info));
        ("scripts", object_value σ (route_scripts info));
        ("routeData", routeData info)].

Definition routes_value (σ : gmap loc object) (m : SerializedSSRManifest) : value :=
  VArr (map (route_value σ) (routes m)).

Definition site_value (m : SerializedSSRManifest) : value :=
  match site m with
  | Some s => VStr s
  | None => VUndefined
  end.

Definition entryModules_value (σ : gmap loc object) (m : SerializedSSRManifest)
  : value :=
  object_value σ (entryModules m).

Definition manifest_value (σ : gmap loc object) (m : SerializedSSRManifest) : value :=
  VObj [("routes", routes_value σ m);
        ("site", site_value m);
        ("markdown", VObj [("render", VArr (markdown_render m))]);
        ("pageMap", pageMap m);
        ("renderers", VArr (renderers m));
        ("entryModules", entryModules_value σ m)].

(** *** The placeholder and its replacement *)

(** The character class of the pattern: a single or a double quote. *)
Definition is_quote (c : ascii) : bool :=
  Ascii.eqb c "'" || Ascii.eqb c double_quote.

(** The pattern, a quote, [manifestReplace], a quote, matched at the
    start of [s]: the text after the match. *)
Definition match_placeholder (s : string) : option string :=
  match s with
  | String q r =>
      if is_quote q then
        match JSON.strip_prefix manifestReplace r with
        | Some (String q' after) => if is_quote q' then Some after else None
        | _ => None
        end
      else None
  | EmptyString => None
  end.

(** [code.replace(exp, () => replacement)] for the pattern above, which
    has no [g] flag: the first match from the left is replaced, and a
    code without a match is returned as it is. *)
Fixpoint replace_placeholder (code replacement : string) : string :=
  match match_placeholder code with
  | Some after => replacement +:+ after
  | None =>
      match code with
      | String c rest => String c (replace_placeholder rest replacement)
      | EmptyString => ""
      end
  end.

Section Build.

(** [serializeRouteData] of the routing module. *)
Variable serializeRouteData : value -> value.

(** [BEFORE_HYDRATION_SCRIPT_ID] of the scripts plugin. *)
Variable BEFORE_HYDRATION_SCRIPT_ID : string.

(** The default export of [@astrojs/markdown-remark]. *)
Variable astroRemark : value.

(** [if (pageData.hoistedScript)]: a string is truthy unless empty. *)
Definition hoisted (pageData : PageBuildData) : option string :=
  match hoistedScript pageData with
  | Some h => if String.eqb h "" then None else Some h
  | None => None
  end.

(** The body of the loop over the pages, up to the record it pushes. *)
Definition route_info (pageData : PageBuildData) : St SerializedRouteInfo :=
  let* scripts := Array_from (scripts pageData) in
  let* _ := match hoisted pageData with
            | Some h => Array_unshift scripts h
            | None => pure tt
            end in
  let* links := Array_from (css pageData) in
  pure {| file := ""; links := links; route_scripts := scripts;
          routeData := serializeRouteData (route pageData) |}.

(** [for (const pageData of eachPageData(internals)) { ... routes.push(...) }]. *)
Fixpoint push_routes (pages : list PageBuildData)
    (routes : list SerializedRouteInfo) : St (list SerializedRouteInfo) :=
  match pages with
  | [] => pure routes
  | pageData :: rest =>
      let* info := route_info pageData in
      push_routes rest (routes ++ [info])
  end.

(** [function buildManifest(opts, internals)]. *)
Definition buildManifest (opts : StaticBuildOptions) (internals : BuildInternals)
  : St SerializedSSRManifest :=
  let* routes := push_routes (eachPageData internals) [] in
  let* entries := Map_entries (entrySpecifierToBundleMap internals) in
  let* entryModules := Object_fromEntries entries in
  let* _ := Object_set entryModules BEFORE_HYDRATION_SCRIPT_ID
                       no_before_hydration_script in
  pure {| routes := routes;
          site := config_site (astroConfig opts);
          markdown_render := [astroRemark; config_markdown (astroConfig opts)];
          pageMap := VNull;
          renderers := [];
          entryModules := entryModules |}.

(** What the loop leaves for a page: a route record whose [scripts] and
    [links] are arrays with the page's scripts, the hoisted one first,
    and the page's stylesheets. *)
Definition route_built (σ σ' : gmap loc object) (pageData : PageBuildData)
    (info : SerializedRouteInfo) : Prop :=
  file info = "" /\
  routeData info = serializeRouteData (route pageData) /\
  (exists elems, σ' !! route_scripts info = Some (OArray elems) /\
     forall set, σ !! scripts pageData = Some (OSet set) ->
       elems = match hoisted pageData with
               | Some h => h :: set
               | None => set
               end) /\
  (exists elems, σ' !! links info = Some (OArray elems) /\
     forall set, σ !! css pageData = Some (OSet set) -> elems = set).

(** [JSON.stringify(manifest)], as the replacement callback returns it. *)
Definition manifest_text (σ : gmap loc object) (m : SerializedSSRManifest)
  : string :=
  default "undefined" (JSON.stringify (manifest_value σ m)).

(** The body of the loop of [generateBundle] for one entry. *)
Definition rewrite_chunk (text : string) (chunk : output) : output :=
  match chunk with
  | Asset _ => chunk
  | Chunk modules code =>
      if has_module modules resolvedVirtualModuleId
      then Chunk modules (replace_placeholder code text)
      else chunk
  end.

(** [generateBundle(_opts, bundle)]: the bundle is returned with the code
    of its chunks as the hook leaves it. *)
Definition generateBundle (opts : StaticBuildOptions) (internals : BuildInternals)
    (bundle : list (string * output)) : St (list (string * output)) :=
  let* manifest := buildManifest opts internals in
  fun σ =>
    (map (fun entry => (entry.1, rewrite_chunk (manifest_text σ manifest) entry.2))
         bundle, σ).

End Build.
End Plugin.

(** ** Concrete inputs *)

Module Examples.
Import JS.

(** An environment: function 1 is a slot with one embedded expression,
    function 2; function 2 returns a string; [renderSlot] answers the
    string it is given, or a fixed paragraph. *)
Definition call_result (h : Render.history) (f : fid) (args : list value)
  : completion value :=
  match f with
  | 1%positive => Normal (VObj [("expressions", VArr [VFun 2])])
  | 2%positive => Normal (VStr "row")
  | _ => Normal VUndefined
  end.

Definition renderSlot_result (h : Render.history) (slotted : value)
  : completion value :=
  match slotted with
  | VStr s => Normal (VStr s)
  | _ => Normal (VStr "<p>hi</p>")
  end.

Definition String_ (v : value) : string :=
  match v with
  | VStr s => s
  | _ => "[object Object]"
  end.

Definition bold (s : string) : string := s.

Definition isCSSRequest (path : string) : bool := String.eqb path "./main.css".

Definition isScriptRequest (path : string) : bool := String.eqb path "./main.js".

Definition URL_origin (url : string) : completion string :=
  Normal "https://example.com".

Definition createCanonicalURL (url base : string) : completion value :=
  Normal (VStr (base +:+ "/" +:+ url)).

Definition args (ssr legacyBuild : bool) : Render.CreateResultArgs :=
  {| Render.ssr := ssr;
     Render.legacyBuild := legacyBuild;
     Render.logging := VObj [];
     Render.origin := "https://example.com";
     Render.markdownRender := VArr [];
     Render.params := VObj [];
     Render.pathname := "/";
     Render.renderers := [];
     Render.resolve := VFun 3;
     Render.site := None;
     Render.links := None;
     Render.scripts := None;
     Render.request_url := "https://example.com/" |}.

Definition result (ssr legacyBuild : bool) : Render.SSRResult :=
  {| Render.result_styles := [];
     Render.result_scripts := [];
     Render.result_links := [];
     Render.result_resolve := VFun 3;
     Render.metadata_renderers := [];
     Render.metadata_pathname := "/";
     Render.metadata_legacyBuild := legacyBuild;
     Render.closure_args := args ssr legacyBuild;
     Render.closure_canonicalURL := VStr "https://example.com/./" |}.

Definition slot_map : list (string * value) := [("default", VFun 1)].

Definition this : Render.Slots :=
  {| Render.cache := ∅;
     Render.result := result true false;
     Render.slots := Some slot_map;
     Render.own_properties := ["default"] |}.

Definition with_result (this : Render.Slots) (r : Render.SSRResult) : Render.Slots :=
  {| Render.cache := Render.cache this;
     Render.result := r;
     Render.slots := Render.slots this;
     Render.own_properties := Render.own_properties this |}.

(** A build with two pages: the first has the hoisted script [H] and the
    scripts [A], [B], the second no hoisted script and the script [C].
    The table of the internals already has an entry for the
    before-hydration script. *)
Definition serializeRouteData (route : value) : value := route.

Definition BEFORE_HYDRATION_SCRIPT_ID : string := "astro:scripts/before-hydration.js".

Definition astroRemark : value := VObj [("default", VFun 9)].

Definition store : gmap Plugin.loc Plugin.object :=
  <[1%positive := Plugin.OSet ["A"; "B"]]>
  (<[2%positive := Plugin.OSet ["a.css"]]>
  (<[3%positive := Plugin.OSet ["C"]]>
  (<[4%positive := Plugin.OSet []]>
  (<[5%positive := Plugin.OMap [("x.js", "chunks/x.123.js");
                                (BEFORE_HYDRATION_SCRIPT_ID, "chunks/bh.456.js")]]>
   ∅)))).

Definition page1 : Plugin.PageBuildData :=
  {| Plugin.route := VObj [("type", VStr "page"); ("pattern", VStr "^\/$")];
     Plugin.css := 2%positive;
     Plugin.hoistedScript := Some "H";
     Plugin.scripts := 1%positive |}.

Definition page2 : Plugin.PageBuildData :=
  {| Plugin.route := VObj [("type", VStr "page"); ("pattern", VStr "^\/about$")];
     Plugin.css := 4%positive;
     Plugin.hoistedScript := None;
     Plugin.scripts := 3%positive |}.

Definition internals : Plugin.BuildInternals :=
  {| Plugin.pageData := [page1; page2];
     Plugin.entrySpecifierToBundleMap := 5%positive |}.

Definition opts : Plugin.StaticBuildOptions :=
  {| Plugin.astroConfig :=
       {| Plugin.config_site := Some "https://example.com";
          Plugin.config_markdown := VObj [("mode", VStr "mdx")] |} |}.

Definition bundle : list (string * Plugin.output) :=
  [("style.css", Plugin.Asset "body{}");
   ("entry.mjs",
    Plugin.Chunk [Plugin.resolvedVirtualModuleId]
      ("const m = d(" +:+ String "'" (Plugin.manifestReplace +:+ String "'" ");")))].

Definition manifest : Plugin.SerializedSSRManifest :=
  (Plugin.buildManifest serializeRouteData BEFORE_HYDRATION_SCRIPT_ID astroRemark
     opts internals store).1.

Definition store_after : gmap Plugin.loc Plugin.object :=
  (Plugin.buildManifest serializeRouteData BEFORE_HYDRATION_SCRIPT_ID astroRemark
     opts internals store).2.

End Examples.

(** ** The other hooks of the plugin: [resolveId] and [load] *)

Module Hooks.
Import JS Plugin.

(** The fields of [AstroAdapter] the plugin reads.  [serverEntrypoint],
    [exports] and [args] are optional. *)
Record AstroAdapter := {
  serverEntrypoint : option string;
  exports : option (list string);
  adapter_args : value;
}.

(** [resolveId(id)]; [None] is [undefined]. *)
Definition resolveId (id : string) : option string :=
  if String.eqb id virtualModuleId then Some resolvedVirtualModuleId else None.

Section Load.

(** [virtualModuleId] of the pages plugin. *)
Variable pagesVirtualModuleId : string.

(** The module text of [load] up to the placeholder's opening quote. *)
Definition load_prefix (adapter : AstroAdapter) : string :=
  "import * as adapter from '" +:+ default "undefined" (serverEntrypoint adapter)
  +:+ "';" +:+ newline +:+
  "import * as _main from '" +:+ pagesVirtualModuleId +:+ "';" +:+ newline +:+
  "import { deserializeManifest as _deserializeManifest } from 'astro/app';"
  +:+ newline +:+
  "const _manifest = Object.assign(_deserializeManifest(".

(** [adapter.args ? JSON.stringify(adapter.args) : 'undefined']. *)
Definition args_text (adapter : AstroAdapter) : string :=
  if truthy (adapter_args adapter)
  then default "undefined" (JSON.stringify (adapter_args adapter))
  else "undefined".

Definition export_line (name : string) : string :=
  "export const " +:+ name +:+ " = _exports['" +:+ name +:+ "'];".

(** The text for [adapter.exports]: empty when there is no list. *)
Definition exports_text (adapter : AstroAdapter) : string :=
  match exports adapter with
  | Some names =>
      "const _exports = adapter.createExports(_manifest, _args);" +:+ newline +:+
      String.concat newline (map export_line names) +:+ newline +:+
      (if existsb (String.eqb "_default") names
       then "export default _default" else "") +:+ newline
  | None => ""
  end.

(** The module text of [load] after the placeholder's closing quote. *)
Definition load_suffix (adapter : AstroAdapter) : string :=
  "), {" +:+ newline +:+
  tab +:+ "pageMap: _main.pageMap," +:+ newline +:+
  tab +:+ "renderers: _main.renderers" +:+ newline +:+
  "});" +:+ newline +:+
  "const _args = " +:+ args_text adapter +:+ ";" +:+ newline +:+
  newline +:+
  exports_text adapter +:+ newline +:+
  "const _start = 'start';" +:+ newline +:+
  "if(_start in adapter) {" +:+ newline +:+
  tab +:+ "adapter[_start](_manifest, _args);" +:+ newline +:+
  "}".

(** The template literal of [load]. *)
Definition load_code (adapter : AstroAdapter) : string :=
  load_prefix adapter +:+
  String "'" (manifestReplace +:+ String "'" (load_suffix adapter)).

(** [load(id)]; [None] is [undefined]. *)
Definition load (adapter : AstroAdapter) (id : string) : option string :=
  if String.eqb id resolvedVirtualModuleId then Some (load_code adapter) else None.

End Load.

(** The pattern of [generateBundle] matches somewhere in [s]. *)
Fixpoint has_placeholder (s : string) : bool :=
  match match_placeholder s with
  | Some _ => true
  | None =>
      match s with
      | String _ rest => has_placeholder rest
      | EmptyString => false
      end
  end.

(** The objects [buildManifest] has created for a manifest: the two
    arrays of every route, then the entry-module record. *)
Definition created (m : SerializedSSRManifest) : list loc :=
  flat_map (fun info => [route_scripts info; links info]) (routes m)
  ++ [entryModules m].

End Hooks.

(** ** The hidden [__renderMarkdown] of the [Astro] object

    The function [createAstro] defines as the non-enumerable,
    non-writable property [__renderMarkdown].  It closes over
    [markdownRender], which [createResult] takes from its arguments; here
    it is the first parameter. *)

Module Markdown.
Import JS.

(** What the function does to the outside: it imports a module, awaits a
    promise it was given, calls the parser.  As in [Render], what each of
    them answers is a function of the events before it. *)
Inductive event :=
| EvImport (specifier : string)
| EvAwait (promise : value)
| EvCall (f : fid) (args : list value).
Arguments EvCall f%_positive args.

Definition history := list event.

Definition M (A : Type) : Type := history -> completion A * history.

Definition ret {A} (a : A) : M A := fun h => (Normal a, h).

Definition throw {A} (e : error) : M A := fun h => (Throw e, h).

Definition bind {A B} (m : M A) (k : A -> M B) : M B :=
  fun h =>
    match m h with
    | (Normal a, h') => k a h'
    | (Throw e, h') => (Throw e, h')
    end.

(** An expression that has no effect but may throw. *)
Definition lift {A} (c : completion A) : M A := fun h => (c, h).

Notation "'let!' x := m 'in' k" := (bind m (fun x => k))
  (at level 10, x name, m at level 100, k at level 200).

(** [ev] is a call of a function. *)
Definition is_call (ev : event) : bool :=
  match ev with
  | EvCall _ _ => true
  | _ => false
  end.

(** [let [a, b] = v]: the first two values [v] iterates over,
    [undefined] where it has fewer.  Arrays and strings are the iterable
    values of [JS]; a string iterates over its characters. *)
Definition destructure_pair (v : value) : completion (value * value) :=
  match v with
  | VArr _ | VStr _ => Normal (get_index v 0, get_index v 1)
  | _ => Throw (TypeError "is not iterable")
  end.

(** [v.name], and [const { name } = v]: reading a property of
    [undefined] or [null] throws. *)
Definition member (v : value) (name : string) : completion value :=
  match v with
  | VUndefined | VNull => Throw (TypeError "Cannot read properties of undefined")
  | _ => Normal (get_prop v name)
  end.

(** The own enumerable properties [{ ...v }] copies: those of an object,
    the elements of an array and the characters of a string under their
    indices, none for the other values. *)
Definition own_enumerable (v : value) : list (string * value) :=
  match v with
  | VObj props => props
  | VArr elems => imap (fun i x => (pretty i, x)) elems
  | VStr s =>
      imap (fun i c => (pretty i, VStr (String c EmptyString)))
           (list_ascii_of_string s)
  | _ => []
  end.

(** [v ?? {}]. *)
Definition or_empty (v : value) : value :=
  if not_nullish v then v else VObj [].

(** [{ ...renderOpts, ...(opts ?? {}) }]. *)
Definition merged_options (renderOpts opts : value) : list (string * value) :=
  define_all (own_enumerable renderOpts ++ own_enumerable (or_empty opts)).

(** [if (Array.isArray(mdRender)) { renderOpts = mdRender[1]; mdRender = mdRender[0]; }]
    on the pair [(mdRender, renderOpts)]. *)
Definition unwrap (pair : value * value) : value * value :=
  match pair.1 with
  | VArr _ => (get_index pair.1 0, get_index pair.1 1)
  | _ => pair
  end.

Section Environment.

(** What [await import(specifier)] completes with. *)
Variable import_result : history -> string -> completion value.

(** [v instanceof Promise]: the values of [JS] do not show the class of
    an object. *)
Variable instanceof_Promise : value -> bool.

(** What [await promise] completes with. *)
Variable await_result : history -> value -> completion value.

(** What [await f(...args)] completes with. *)
Variable call_result : history -> fid -> list value -> completion value.

Definition import_ (specifier : string) : M value :=
  fun h => (import_result h specifier, h ++ [EvImport specifier]).

Definition await (promise : value) : M value :=
  fun h => (await_result h promise, h ++ [EvAwait promise]).

(** [v(...args)]: only a function object can be called. *)
Definition call (v : value) (args : list value) : M value :=
  match v with
  | VFun f => fun h => (call_result h f args, h ++ [EvCall f args])
  | _ => throw (TypeError "is not a function")
  end.

(** The chain of tests on [mdRender] that leaves the parser in
    [parser]: a string is imported, a promise awaited, and of both the
    [default] is taken; a function is the parser itself. *)
Definition find_parser (mdRender : value) : M value :=
  match mdRender with
  | VStr specifier =>
      let! imported := import_ specifier in
      lift (member imported "default")
  | _ =>
      if instanceof_Promise mdRender then
        let! awaited := await mdRender in
        lift (member awaited "default")
      else
        match mdRender with
        | VFun _ => ret mdRender
        | _ => throw (Error "No Markdown parser found.")
        end
  end.

(** [async function (content, opts)], the value of [__renderMarkdown]. *)
Definition __renderMarkdown (markdownRender : value) (content : string)
    (opts : value) : M value :=
  let! pair := lift (destructure_pair markdownRender) in
  let! parser := find_parser (unwrap pair).1 in
  let! rendered := call parser [VStr content;
                                VObj (merged_options (unwrap pair).2 opts)] in
  lift (member rendered "code").

End Environment.
End Markdown.

(** ** Conditions the further properties are stated with *)

Module Conditions.
Import JS.

(** What [render] hands out: a string, [null] or [undefined]. *)
Definition textual (v : value) : bool :=
  match v with
  | VStr _ | VNull | VUndefined => true
  | _ => false
  end.

(** [typeof v === 'function']. *)
Definition is_function (v : value) : bool :=
  match v with
  | VFun _ => true
  | _ => false
  end.

(** [typeof v === 'string']. *)
Definition is_string (v : value) : bool :=
  match v with
  | VStr _ => true
  | _ => false
  end.

(** [Array.isArray(v)]. *)
Definition is_array (v : value) : bool :=
  match v with
  | VArr _ => true
  | _ => false
  end.

(** [key] is not an array index. *)
Definition not_an_index (key : string) : bool :=
  match array_index key with
  | Some _ => false
  | None => true
  end.

End Conditions.

(** ** Further concrete inputs *)

Module MoreExamples.
Import JS.

(** A [Slots] object built without a slot map. *)
Definition without_slots : Render.Slots :=
  {| Render.cache := ∅;
     Render.result := Examples.result true false;
     Render.slots := None;
     Render.own_properties := [] |}.

(** A slot whose content has no embedded expression: in the environment
    of [Examples], function 3 returns [undefined]. *)
Definition footer_map : list (string * value) := [("footer", VFun 3)].

Definition with_footer : Render.Slots :=
  {| Render.cache := ∅;
     Render.result := Examples.result true false;
     Render.slots := Some footer_map;
     Render.own_properties := ["footer"] |}.

(** A renderer that fails the first time it is asked. *)
Definition renderSlot_flaky (h : Render.history) (slotted : value)
  : completion value :=
  match h with
  | [] => Throw (Error "out of memory")
  | _ => Normal (VStr "<p>hi</p>")
  end.

(** Slot functions whose content has one embedded expression, a text. *)
Definition call_text (h : Render.history) (f : fid) (args : list value)
  : completion value :=
  Normal (VObj [("expressions", VArr [VStr "text"])]).

(** A slot map with a reserved name in second place. *)
Definition reserved_map : list (string * value) :=
  [("default", VFun 1); ("has", VFun 2); ("render", VFun 3)].

(** The partial [Astro] of a page, with the [resolve] of the compiler. *)
Definition astroGlobal : value := VObj [("resolve", VFun 7)].

(** An adapter with an entry point, two exports and arguments. *)
Definition adapter : Hooks.AstroAdapter :=
  {| Hooks.serverEntrypoint := Some "@astrojs/node/server.js";
     Hooks.exports := Some ["handler"; "_default"];
     Hooks.adapter_args := VObj [("port", VNum 8080)] |}.

Definition pagesVirtualModuleId : string := "@astrojs-pages-virtual-entry".

(** A bundle whose entry chunk is the module text of [load], and one
    whose entry chunk has lost the placeholder. *)
Definition bundle_loaded : list (string * Plugin.output) :=
  [("entry.mjs",
    Plugin.Chunk [Plugin.resolvedVirtualModuleId]
      (Hooks.load_code pagesVirtualModuleId adapter))].

Definition bundle_plain : list (string * Plugin.output) :=
  [("entry.mjs",
    Plugin.Chunk [Plugin.resolvedVirtualModuleId] "const _manifest = {};")].

(** The store of [Examples] with a table whose specifiers include array
    indices. *)
Definition indexed_entries : list (string * string) :=
  [("b.js", "chunks/b.js"); ("10", "chunks/10.js"); ("2", "chunks/2.js")].

Definition store_indexed : gmap Plugin.loc Plugin.object :=
  <[5%positive := Plugin.OMap indexed_entries]> Examples.store.

(** A build whose one page has a route that holds a function. *)
Definition page_generate : Plugin.PageBuildData :=
  {| Plugin.route := VObj [("type", VStr "page"); ("generate", VFun 8)];
     Plugin.css := 2%positive;
     Plugin.hoistedScript := None;
     Plugin.scripts := 1%positive |}.

Definition internals_generate : Plugin.BuildInternals :=
  {| Plugin.pageData := [page_generate];
     Plugin.entrySpecifierToBundleMap := 5%positive |}.

(** An environment for [__renderMarkdown]: every module has function 1
    as [default], no value is a promise, function 1 renders to a fixed
    paragraph. *)
Definition import_result (h : Markdown.history) (specifier : string)
  : completion value :=
  Normal (VObj [("default", VFun 1)]).

Definition instanceof_Promise (v : value) : bool := false.

Definition await_result (h : Markdown.history) (promise : value)
  : completion value :=
  Normal VUndefined.

Definition parser_result (h : Markdown.history) (f : fid) (args : list value)
  : completion value :=
  Normal (VObj [("code", VStr "<p>hi</p>")]).

End MoreExamples.

(** ** Properties of [JSON.parse] after [JSON.stringify] *)

Module JSONFacts.
Import JS JSON.

Local Arguments parse_number : simpl never.

(** *** Strings *)

Lemma append_assoc (a b c : string) : (a +:+ b) +:+ c = a +:+ (b +:+ c).
Proof. induction a as [|x a IH]; simpl; [reflexivity|by rewrite IH]. Qed.

Lemma length_append (a b : string) :
  String.length (a +:+ b) = String.length a + String.length b.
Proof. induction a as [|x a IH]; simpl; [reflexivity|by rewrite IH]. Qed.

(** Reading an escaped code unit gives the code unit back. *)
Lemma parse_string_escape_char c s :
  parse_string (escape_char c +:+ s) = prepend c (parse_string s).
Proof.
  destruct c as [[] [] [] [] [] [] [] []]; reflexivity.
Qed.

Lemma parse_string_escape s rest :
  parse_string (escape s +:+ String double_quote rest) = Some (s, rest).
Proof.
  induction s as [|c s IH]; [reflexivity|].
  change (escape (String c s)) with (escape_char c +:+ escape s).
  rewrite append_assoc, parse_string_escape_char, IH. reflexivity.
Qed.

(** *** Numbers *)

Lemma delimited_inv rest :
  delimited rest = true ->
  rest = "" \/ exists r, rest = String "," r \/ rest = String "]" r \/ rest = String "}" r.
Proof.
  destruct rest as [|c r]; [by left|]. simpl. intros H. right. exists r.
  apply orb_true_iff in H as [H|H]; [apply orb_true_iff in H as [H|H]|];
    apply Ascii.eqb_eq in H; subst; auto.
Qed.

Lemma parse_digits_delimited rest :
  delimited rest = true -> parse_digits rest = (Decimal.Nil, rest).
Proof.
  intros [->|(r & [->|[->| ->]])]%delimited_inv; reflexivity.
Qed.

Lemma starts_fraction_delimited rest :
  delimited rest = true -> starts_fraction rest = false.
Proof.
  intros [->|(r & [->|[->| ->]])]%delimited_inv; reflexivity.
Qed.

Lemma parse_digits_string_of_uint u rest :
  delimited rest = true ->
  parse_digits (NilEmpty.string_of_uint u +:+ rest) = (u, rest).
Proof.
  intros Hrest. induction u; simpl; rewrite ?IHu; try reflexivity.
  by apply parse_digits_delimited.
Qed.

(** The decimal digits of a positive number do not start with a zero. *)
Lemma to_uint_no_leading_zero p u : Pos.to_uint p <> Decimal.D0 u.
Proof.
  intros Heq.
  assert (Hnorm : Decimal.unorm (Pos.to_uint p) = Pos.to_uint p).
  { rewrite <- (DecimalPos.Unsigned.to_of (Pos.to_uint p)).
    by rewrite DecimalPos.Unsigned.of_to. }
  rewrite Heq in Hnorm. rewrite DecimalFacts.unorm_D0 in Hnorm.
  unfold Decimal.unorm in Hnorm.
  destruct (Decimal.nzhead u) as [|u0| | | | | | | | |] eqn:Hnz; try discriminate.
  - apply (DecimalPos.Unsigned.to_uint_nonzero p). by rewrite Heq, <- Hnorm.
  - by apply (DecimalFacts.nzhead_nonzero u u0).
Qed.

Lemma parse_unsigned_to_uint p rest :
  delimited rest = true ->
  parse_unsigned (NilEmpty.string_of_uint (Pos.to_uint p) +:+ rest)
    = Some (Pos.to_uint p, rest).
Proof.
  intros Hrest. unfold parse_unsigned.
  rewrite parse_digits_string_of_uint, starts_fraction_delimited by done.
  pose proof (DecimalPos.Unsigned.to_uint_nonnil p) as Hnil.
  pose proof (to_uint_no_leading_zero p) as Hzero.
  destruct (Pos.to_uint p) as [|u| | | | | | | | |]; try reflexivity.
  - by destruct Hnil.
  - by destruct (Hzero u).
Qed.

Lemma parse_number_print_Z n rest :
  delimited rest = true -> parse_number (print_Z n +:+ rest) = Some (n, rest).
Proof.
  intros Hrest. unfold print_Z.
  pose proof (DecimalZ.of_to n) as Hn. destruct n as [|p|p]; simpl.
  - unfold parse_number, parse_unsigned. simpl.
    rewrite parse_digits_delimited, starts_fraction_delimited by done. reflexivity.
  - pose proof (DecimalPos.Unsigned.to_uint_nonnil p) as Hnil.
    assert (Hs : NilZero.string_of_uint (Pos.to_uint p)
                 = NilEmpty.string_of_uint (Pos.to_uint p)).
    { by destruct (Pos.to_uint p). }
    rewrite Hs. pose proof (parse_unsigned_to_uint p rest Hrest) as Hu.
    unfold parse_number.
    destruct (NilEmpty.string_of_uint (Pos.to_uint p) +:+ rest) as [|c r] eqn:Hstr.
    { unfold parse_unsigned in Hu. simpl in Hu. discriminate. }
    assert (Hc : Ascii.eqb c "-" = false).
    { destruct (Pos.to_uint p); simpl in Hstr; try (by destruct Hnil);
        inversion Hstr; reflexivity. }
    rewrite Hc, Hu. f_equal. f_equal. exact Hn.
  - pose proof (DecimalPos.Unsigned.to_uint_nonnil p) as Hnil.
    assert (Hs : NilZero.string_of_uint (Pos.to_uint p)
                 = NilEmpty.string_of_uint (Pos.to_uint p)).
    { by destruct (Pos.to_uint p). }
    rewrite Hs. unfold parse_number. simpl.
    rewrite (parse_unsigned_to_uint p rest Hrest).
    pose proof (DecimalPos.Unsigned.to_uint_nonzero p) as Hnz.
    change (Z.of_int (Decimal.Neg (Pos.to_uint p)) = Z.neg p) in Hn.
    destruct (Pos.to_uint p) as [|u| | | | | | | | |];
      try exact (f_equal (fun z => Some (z, rest)) Hn).
    destruct u; try exact (f_equal (fun z => Some (z, rest)) Hn).
    by destruct Hnz.
Qed.

(** *** The first character of a text *)

Ltac head_cases H :=
  simpl in H;
  repeat (apply orb_true_iff in H as [H|H]);
  try discriminate H;
  apply Ascii.eqb_eq in H; subst.

Lemma print_Z_head n rest : starts_value (print_Z n +:+ rest) = true.
Proof.
  unfold print_Z. destruct n as [|p|p]; try reflexivity.
  simpl. destruct (Pos.to_uint p); reflexivity.
Qed.

Lemma stringify_head v t rest :
  stringify v = Some t -> starts_value (t +:+ rest) = true.
Proof.
  destruct v as [| |[]| | | | |]; simpl; intros [= <-]; try reflexivity.
  apply print_Z_head.
Qed.

Lemma parse_value_number fuel n rest :
  delimited rest = true ->
  parse_value (S fuel) (print_Z n +:+ rest) = Some (VNum n, rest).
Proof.
  intros Hrest. pose proof (parse_number_print_Z n rest Hrest) as Hnum.
  pose proof (print_Z_head n rest) as Hhead.
  destruct (print_Z n +:+ rest) as [|c r]; [discriminate|].
  head_cases Hhead; simpl; try discriminate Hnum; by rewrite Hnum.
Qed.

(** *** Arrays *)

Lemma elem_text_head v rest : starts_value (elem_text v +:+ rest) = true.
Proof.
  unfold elem_text. destruct (stringify v) as [t|] eqn:Ht; [|reflexivity].
  by eapply stringify_head.
Qed.

Lemma parse_elements_eq f s :
  parse_elements (S f) s =
    match parse_value f s with
    | Some (v, r) =>
        match skip_ws r with
        | String c r' =>
            if Ascii.eqb c "," then
              match parse_elements f r' with
              | Some (elems, rest) => Some (v :: elems, rest)
              | None => None
              end
            else if Ascii.eqb c "]" then Some ([v], r')
            else None
        | EmptyString => None
        end
    | None => None
    end.
Proof. reflexivity. Qed.

Lemma parse_value_open_array f s :
  starts_value s = true ->
  parse_value (S f) (String "[" s) =
    match parse_elements f s with
    | Some (elems, rest) => Some (VArr elems, rest)
    | None => None
    end.
Proof. intros H. destruct s as [|c r]; [discriminate|]. head_cases H; reflexivity. Qed.

Lemma parse_elements_roundtrip elems :
  Forall roundtrips elems -> elems <> [] ->
  forall fuel rest,
    String.length (String.concat "," (map elem_text elems)) + 1 < fuel ->
    parse_elements fuel (String.concat "," (map elem_text elems) +:+ String "]" rest)
      = Some (map elem_image elems, rest).
Proof.
  induction 1 as [|x l Hx Hl IH]; [done|]. intros _ fuel rest Hfuel.
  destruct fuel as [|f]; [exfalso; clear -Hfuel; lia|]. rewrite parse_elements_eq.
  destruct l as [|y l'].
  - change (String.concat "," (map elem_text [x])) with (elem_text x) in *.
    rewrite Hx; [reflexivity| clear -Hfuel; lia | done].
  - change (String.concat "," (map elem_text (x :: y :: l')))
      with (elem_text x +:+ "," +:+ String.concat "," (map elem_text (y :: l'))) in *.
    rewrite !length_append in Hfuel. change (String.length ",") with 1 in Hfuel.
    rewrite !append_assoc. rewrite Hx by (done || lia).
    simpl skip_ws. cbn iota. simpl Ascii.eqb. cbn iota.
    rewrite IH by (done || lia). reflexivity.
Qed.

(** *** Objects *)

Lemma image_None v : stringify v = None -> image v = None.
Proof. by destruct v as [| |[]| | | | |]. Qed.

Lemma image_Some v t : stringify v = Some t -> is_Some (image v).
Proof. destruct v as [| |[]| | | | |]; simpl; intros [=]; eauto. Qed.

Lemma member_texts_kept props :
  flat_map (fun kv => match stringify kv.2 with
                      | Some t => [quote kv.1 +:+ ":" +:+ t]
                      | None => []
                      end) props
  = map member_text (kept props).
Proof.
  induction props as [|[k x] props IH]; [reflexivity|].
  unfold kept in *. simpl. destruct (stringify x) as [t|] eqn:Ht.
  - rewrite filter_cons_True by (simpl; rewrite Ht; eauto).
    simpl. f_equal; [|exact IH]. unfold member_text, elem_text. simpl. by rewrite Ht.
  - rewrite filter_cons_False by (simpl; rewrite Ht; by intros [? ?]).
    exact IH.
Qed.

Lemma member_images_kept props :
  flat_map (fun kv => match image kv.2 with
                      | Some y => [(kv.1, y)]
                      | None => []
                      end) props
  = map member_image (kept props).
Proof.
  induction props as [|[k x] props IH]; [reflexivity|].
  unfold kept in *. simpl. destruct (stringify x) as [t|] eqn:Ht.
  - rewrite filter_cons_True by (simpl; rewrite Ht; eauto).
    destruct (image_Some x t Ht) as [y Hy]. simpl. rewrite Hy. simpl.
    f_equal; [|exact IH]. unfold member_image, elem_image. simpl. by rewrite Hy.
  - rewrite filter_cons_False by (simpl; rewrite Ht; by intros [? ?]).
    simpl. rewrite (image_None x Ht). exact IH.
Qed.

Lemma parse_members_eq f k s :
  parse_members (S f) (quote k +:+ ":" +:+ s) =
    match parse_value f s with
    | Some (v, r3) =>
        match skip_ws r3 with
        | String c r4 =>
            if Ascii.eqb c "," then
              match parse_members f r4 with
              | Some (members, rest) => Some ((k, v) :: members, rest)
              | None => None
              end
            else if Ascii.eqb c "}" then Some ([(k, v)], r4)
            else None
        | EmptyString => None
        end
    | None => None
    end.
Proof.
  unfold quote.
  change (String double_quote (escape k +:+ String double_quote "") +:+ ":" +:+ s)
    with (String double_quote ((escape k +:+ String double_quote "") +:+ ":" +:+ s)).
  rewrite append_assoc.
  change (String double_quote "" +:+ ":" +:+ s) with (String double_quote (String ":" s)).
  change (parse_members (S f) (String double_quote (escape k +:+ String double_quote (String ":" s))))
    with (match parse_string (escape k +:+ String double_quote (String ":" s)) with
          | Some (key, r1) =>
              match skip_ws r1 with
              | String colon r2 =>
                  if Ascii.eqb colon ":" then
                    match parse_value f r2 with
                    | Some (v, r3) =>
                        match skip_ws r3 with
                        | String c r4 =>
                            if Ascii.eqb c "," then
                              match parse_members f r4 with
                              | Some (members, rest) => Some ((key, v) :: members, rest)
                              | None => None
                              end
                            else if Ascii.eqb c "}" then Some ([(key, v)], r4)
                            else None
                        | EmptyString => None
                        end
                    | None => None
                    end
                  else None
              | EmptyString => None
              end
          | None => None
          end).
  rewrite parse_string_escape. reflexivity.
Qed.

Lemma parse_members_roundtrip l :
  Forall (fun kv => roundtrips kv.2) l -> l <> [] ->
  forall fuel rest,
    String.length (String.concat "," (map member_text l)) + 1 < fuel ->
    parse_members fuel (String.concat "," (map member_text l) +:+ String "}" rest)
      = Some (map member_image l, rest).
Proof.
  induction 1 as [|[k x] l Hx Hl IH]; [done|]. intros _ fuel rest Hfuel.
  destruct fuel as [|f]; [exfalso; clear -Hfuel; lia|].
  simpl in Hx. destruct l as [|y l'].
  - change (String.concat "," (map member_text [(k, x)]))
      with (quote k +:+ ":" +:+ elem_text x) in *.
    rewrite !length_append in Hfuel.
    rewrite !append_assoc, parse_members_eq.
    rewrite Hx; [reflexivity|clear -Hfuel; lia|done].
  - change (String.concat "," (map member_text ((k, x) :: y :: l')))
      with ((quote k +:+ ":" +:+ elem_text x) +:+ "," +:+
            String.concat "," (map member_text (y :: l'))) in *.
    rewrite !length_append in Hfuel. change (String.length ",") with 1 in Hfuel.
    rewrite !append_assoc, parse_members_eq.
    rewrite Hx; [|clear -Hfuel; lia|done].
    simpl skip_ws. cbn iota. simpl Ascii.eqb. cbn iota.
    rewrite IH; [reflexivity|done|clear -Hfuel; lia].
Qed.

(** *** Property order *)

Lemma comes_before_asym a b :
  comes_before a b = true -> comes_before b a = false.
Proof.
  unfold comes_before.
  destruct (array_index a) as [i|], (array_index b) as [j|]; try done.
  intros Hij%N.ltb_lt. apply N.ltb_ge. lia.
Qed.

Lemma comes_before_later a b c :
  comes_before a b = true -> comes_before c b = false ->
  comes_before c a = false.
Proof.
  unfold comes_before.
  destruct (array_index a) as [i|], (array_index b) as [j|],
           (array_index c) as [l|]; try done.
  intros Hij%N.ltb_lt Hlj%N.ltb_ge. apply N.ltb_ge. lia.
Qed.

Lemma own_keys_spec keys :
  own_keys keys = true <-> NoDup keys /\ in_property_order keys = true.
Proof.
  unfold own_keys. rewrite andb_true_iff, bool_decide_eq_true. tauto.
Qed.

Lemma forallb_sublist {A} (f : A -> bool) (l1 l2 : list A) :
  sublist l1 l2 -> forallb f l2 = true -> forallb f l1 = true.
Proof.
  induction 1 as [|x l1 l2 _ IH|x l1 l2 _ IH]; simpl; [done| |].
  - intros [Hx Hl]%andb_true_iff. rewrite Hx. by apply IH.
  - intros [_ Hl]%andb_true_iff. by apply IH.
Qed.

Lemma in_property_order_sublist l1 l2 :
  sublist l1 l2 -> in_property_order l2 = true -> in_property_order l1 = true.
Proof.
  induction 1 as [|x l1 l2 Hsub IH|x l1 l2 Hsub IH]; simpl; [done| |].
  - intros [Hx Hl]%andb_true_iff. apply andb_true_iff. split; [|by apply IH].
    by eapply forallb_sublist.
  - intros [_ Hl]%andb_true_iff. by apply IH.
Qed.

Lemma own_keys_sublist l1 l2 :
  sublist l1 l2 -> own_keys l2 = true -> own_keys l1 = true.
Proof.
  intros Hsub [Hnd Hord]%own_keys_spec. apply own_keys_spec. split.
  - by eapply sublist_NoDup.
  - by eapply in_property_order_sublist.
Qed.

(** A key after others in property order does not come before any of
    them. *)
Lemma in_property_order_app l1 k l2 :
  in_property_order (l1 ++ k :: l2) = true ->
  Forall (fun k' => comes_before k k' = false) l1.
Proof.
  induction l1 as [|k1 l1 IH]; simpl; [constructor|].
  intros [Hk1 Hord]%andb_true_iff. constructor; [|by apply IH].
  rewrite forallb_app in Hk1. apply andb_true_iff in Hk1 as [_ Hk1].
  simpl in Hk1. apply andb_true_iff in Hk1 as [Hk _].
  by apply negb_true_iff.
Qed.

Lemma overwrite_absent {A} (props : list (string * A)) key v :
  key ∉ map fst props -> overwrite props key v = None.
Proof.
  induction props as [|[k x] props IH]; [reflexivity|]. simpl. intros Hnotin.
  apply not_elem_of_cons in Hnotin as [Hne Hnotin].
  destruct (String.eqb_spec k key) as [->|_]; [done|]. by rewrite IH.
Qed.

Lemma overwrite_present {A} (props : list (string * A)) key v :
  key ∈ map fst props ->
  exists props', overwrite props key v = Some props' /\
    map fst props' = map fst props.
Proof.
  induction props as [|[k x] props IH]; simpl.
  - by intros ?%elem_of_nil.
  - intros Hin. destruct (String.eqb_spec k key) as [->|Hne].
    + by eexists.
    + apply elem_of_cons in Hin as [->|Hin]; [done|].
      destruct (IH Hin) as (props' & -> & Hkeys). eexists. split; [reflexivity|].
      simpl. by rewrite Hkeys.
Qed.

Lemma insert_prop_last {A} (props : list (string * A)) key v :
  Forall (fun k => comes_before key k = false) (map fst props) ->
  insert_prop props key v = props ++ [(key, v)].
Proof.
  induction props as [|[k x] props IH]; [reflexivity|]. simpl.
  intros [Hk Hall]%Forall_cons. rewrite Hk. by rewrite IH.
Qed.

(** Defining members with distinct keys, one after the other in property
    order, lists them in their order. *)
Lemma set_prop_fresh {A} (props : list (string * A)) key v :
  key ∉ map fst props ->
  Forall (fun k => comes_before key k = false) (map fst props) ->
  set_prop props key v = props ++ [(key, v)].
Proof.
  intros Hnotin Hlast. unfold set_prop.
  by rewrite overwrite_absent, insert_prop_last.
Qed.

Lemma fold_set_prop_NoDup {A} (members acc : list (string * A)) :
  own_keys (map fst (acc ++ members)) = true ->
  fold_left (fun props e => set_prop props e.1 e.2) members acc = acc ++ members.
Proof.
  revert acc. induction members as [|[k x] members IH]; intros acc Hkeys.
  - by rewrite app_nil_r.
  - simpl. rewrite set_prop_fresh.
    + rewrite IH; rewrite <- app_assoc; [reflexivity|exact Hkeys].
    + apply own_keys_spec in Hkeys as [Hnd _].
      rewrite map_app in Hnd. apply NoDup_app in Hnd as (_ & Hdisj & _).
      intros Hin. apply (Hdisj k Hin). simpl. left.
    + apply own_keys_spec in Hkeys as [_ Hord].
      rewrite map_app in Hord. simpl in Hord.
      by apply in_property_order_app in Hord.
Qed.

Lemma define_all_NoDup {A} (members : list (string * A)) :
  own_keys (map fst members) = true -> define_all members = members.
Proof. intros Hkeys. unfold define_all. by rewrite fold_set_prop_NoDup. Qed.

Lemma assoc_overwrite {A} (props props' : list (string * A)) key v k :
  overwrite props key v = Some props' ->
  assoc props' k = if String.eqb key k then Some v else assoc props k.
Proof.
  revert props'. induction props as [|[k' x] props IH]; intros props'; simpl;
    [done|].
  destruct (String.eqb_spec k' key) as [->|Hne].
  - intros [= <-]. simpl. by destruct (String.eqb key k).
  - destruct (overwrite props key v) as [rest|]; [|done].
    intros [= <-]. simpl. rewrite (IH rest eq_refl).
    destruct (String.eqb_spec k' k) as [->|_]; [|reflexivity].
    destruct (String.eqb_spec key k) as [->|_]; [done|reflexivity].
Qed.

Lemma assoc_absent {A} (props : list (string * A)) k :
  k ∉ map fst props -> assoc props k = None.
Proof.
  induction props as [|[k' x] props IH]; [reflexivity|]. simpl. intros Hnotin.
  apply not_elem_of_cons in Hnotin as [Hne Hnotin].
  destruct (String.eqb_spec k' k) as [->|_]; [done|]. by apply IH.
Qed.

Lemma assoc_insert_prop {A} (props : list (string * A)) key v k :
  key ∉ map fst props ->
  assoc (insert_prop props key v) k =
  if String.eqb key k then Some v else assoc props k.
Proof.
  induction props as [|[k' x] props IH]; simpl; [done|]. intros Hnotin.
  apply not_elem_of_cons in Hnotin as [Hne Hnotin].
  destruct (comes_before key k'); simpl.
  - reflexivity.
  - rewrite IH by done. destruct (String.eqb_spec k' k) as [->|_]; [|reflexivity].
    destruct (String.eqb_spec key k) as [->|_]; [done|reflexivity].
Qed.

(** Reading a property after an assignment. *)
Lemma assoc_set_prop {A} (props : list (string * A)) key v k :
  assoc (set_prop props key v) k =
  if String.eqb key k then Some v else assoc props k.
Proof.
  unfold set_prop. destruct (decide (key ∈ map fst props)) as [Hin|Hnotin].
  - destruct (overwrite_present props key v Hin) as (props' & Hover & _).
    rewrite Hover. simpl. by apply assoc_overwrite.
  - rewrite overwrite_absent by done. simpl. by apply assoc_insert_prop.
Qed.

Lemma insert_prop_keys {A} (props : list (string * A)) key v :
  map fst (insert_prop props key v) ≡ₚ key :: map fst props.
Proof.
  induction props as [|[k x] props IH]; simpl; [done|].
  destruct (comes_before key k); simpl; [done|].
  rewrite IH. apply Permutation_swap.
Qed.

Lemma forallb_Permutation {A} (f : A -> bool) (l1 l2 : list A) :
  l1 ≡ₚ l2 -> forallb f l1 = forallb f l2.
Proof.
  induction 1 as [|x l1 l2 _ IH|x y l|l1 l2 l3 _ IH1 _ IH2]; simpl.
  - reflexivity.
  - by rewrite IH.
  - by destruct (f x), (f y).
  - by rewrite IH1.
Qed.

Lemma insert_prop_order {A} (props : list (string * A)) key v :
  in_property_order (map fst props) = true ->
  in_property_order (map fst (insert_prop props key v)) = true.
Proof.
  induction props as [|[k x] props IH]; simpl; [done|].
  intros [Hk Hord]%andb_true_iff.
  destruct (comes_before key k) eqn:Hbefore; simpl.
  - rewrite Hk, Hord, (comes_before_asym _ _ Hbefore). simpl.
    rewrite andb_true_r. apply forallb_forall. intros k' Hk'.
    rewrite forallb_forall in Hk. apply negb_true_iff.
    eapply comes_before_later; [exact Hbefore|].
    apply negb_true_iff. by apply Hk.
  - rewrite (IH Hord), andb_true_r.
    rewrite (forallb_Permutation _ _ _ (insert_prop_keys props key v)).
    simpl. by rewrite Hbefore, Hk.
Qed.

(** The keys after an assignment: the same when the object has the
    property, one more otherwise. *)
Lemma set_prop_keys_perm {A} (props : list (string * A)) key v :
  map fst (set_prop props key v) ≡ₚ
  if bool_decide (key ∈ map fst props) then map fst props
  else key :: map fst props.
Proof.
  unfold set_prop. destruct (decide (key ∈ map fst props)) as [Hin|Hnotin].
  - rewrite bool_decide_true by done.
    destruct (overwrite_present props key v Hin) as (props' & -> & Hkeys).
    simpl. by rewrite Hkeys.
  - rewrite bool_decide_false, overwrite_absent by done. simpl.
    apply insert_prop_keys.
Qed.

(** An assignment leaves the keys distinct and in property order. *)
Lemma set_prop_own_keys {A} (props : list (string * A)) key v :
  own_keys (map fst props) = true ->
  own_keys (map fst (set_prop props key v)) = true.
Proof.
  intros [Hnd Hord]%own_keys_spec. apply own_keys_spec.
  pose proof (set_prop_keys_perm props key v) as Hperm.
  unfold set_prop in *. destruct (decide (key ∈ map fst props)) as [Hin|Hnotin].
  - destruct (overwrite_present props key v Hin) as (props' & -> & Hkeys).
    simpl. by rewrite Hkeys.
  - rewrite bool_decide_false in Hperm by done.
    rewrite overwrite_absent in * by done. simpl in *. split.
    + rewrite Hperm. by apply NoDup_cons.
    + by apply insert_prop_order.
Qed.

Lemma fold_set_prop_own_keys {A} (entries : list (string * A)) : forall acc,
  own_keys (map fst acc) = true ->
  own_keys (map fst (fold_left (fun props e => set_prop props e.1 e.2)
                               entries acc)) = true.
Proof.
  induction entries as [|[k x] entries IH]; intros acc Hacc; [exact Hacc|].
  simpl. apply IH. by apply set_prop_own_keys.
Qed.

Lemma define_all_own_keys {A} (entries : list (string * A)) :
  own_keys (map fst (define_all entries)) = true.
Proof. by apply fold_set_prop_own_keys. Qed.

(** Members with distinct keys, defined one after the other: what a key
    reads as, which keys there are, and the order of the keys that are
    not array indices. *)
Lemma assoc_fold_set_prop {A} (members : list (string * A)) : forall acc k,
  NoDup (map fst members) ->
  assoc (fold_left (fun props e => set_prop props e.1 e.2) members acc) k =
  match assoc members k with
  | Some v => Some v
  | None => assoc acc k
  end.
Proof.
  induction members as [|[k1 x1] members IH]; intros acc k Hnd; [reflexivity|].
  simpl in Hnd. apply NoDup_cons in Hnd as [Hnotin Hnd]. simpl.
  rewrite IH by exact Hnd. rewrite assoc_set_prop.
  destruct (String.eqb_spec k1 k) as [->|_]; [|reflexivity].
  by rewrite (assoc_absent _ _ Hnotin).
Qed.

Lemma fold_set_prop_keys_perm {A} (members : list (string * A)) : forall acc,
  NoDup (map fst acc ++ map fst members) ->
  map fst (fold_left (fun props e => set_prop props e.1 e.2) members acc)
    ≡ₚ map fst acc ++ map fst members.
Proof.
  induction members as [|[k x] members IH]; intros acc Hnd; simpl.
  - by rewrite app_nil_r.
  - simpl in Hnd.
    assert (Hk : k ∉ map fst acc).
    { apply NoDup_app in Hnd as (_ & Hdisj & _). intros Hin.
      apply (Hdisj k Hin). left. }
    pose proof (set_prop_keys_perm acc k x) as Hperm.
    rewrite bool_decide_false in Hperm by done.
    rewrite IH.
    + rewrite Hperm. simpl. apply Permutation_middle.
    + rewrite Hperm. simpl. by rewrite Permutation_middle.
Qed.

Lemma filter_all {A} (P : A -> bool) (l : list A) :
  forallb P l = true -> List.filter P l = l.
Proof.
  induction l as [|x l IH]; simpl; [done|].
  intros [Hx Hl]%andb_true_iff. rewrite Hx. by rewrite IH.
Qed.

Lemma filter_insert_prop {A} (P : string -> bool) (props : list (string * A))
    key v :
  (P key = true -> forall k, comes_before key k = false) ->
  List.filter P (map fst (insert_prop props key v)) =
  List.filter P (map fst props ++ [key]).
Proof.
  intros HP. induction props as [|[k x] props IH]; [reflexivity|]. simpl.
  destruct (comes_before key k) eqn:Hbefore; simpl.
  - destruct (P key) eqn:HPk; [by rewrite (HP eq_refl k) in Hbefore|].
    rewrite List.filter_app. simpl. rewrite HPk. by rewrite app_nil_r.
  - rewrite IH. reflexivity.
Qed.

Lemma filter_set_prop {A} (P : string -> bool) (props : list (string * A))
    key v :
  (P key = true -> forall k, comes_before key k = false) ->
  List.filter P (map fst (set_prop props key v)) =
  List.filter P (if bool_decide (key ∈ map fst props) then map fst props
                 else map fst props ++ [key]).
Proof.
  intros HP. unfold set_prop.
  destruct (decide (key ∈ map fst props)) as [Hin|Hnotin].
  - rewrite bool_decide_true by done.
    destruct (overwrite_present props key v Hin) as (props' & -> & Hkeys).
    simpl. by rewrite Hkeys.
  - rewrite bool_decide_false, overwrite_absent by done. simpl.
    by apply filter_insert_prop.
Qed.

Lemma filter_fold_set_prop {A} (P : string -> bool)
    (members : list (string * A)) : forall acc,
  (forall key, P key = true -> forall k, comes_before key k = false) ->
  NoDup (map fst acc ++ map fst members) ->
  List.filter P (map fst (fold_left (fun props e => set_prop props e.1 e.2)
                                    members acc))
  = List.filter P (map fst acc ++ map fst members).
Proof.
  induction members as [|[k x] members IH]; intros acc HP Hnd; simpl.
  - by rewrite app_nil_r.
  - simpl in Hnd.
    assert (Hk : k ∉ map fst acc).
    { apply NoDup_app in Hnd as (_ & Hdisj & _). intros Hin.
      apply (Hdisj k Hin). left. }
    pose proof (set_prop_keys_perm acc k x) as Hperm.
    rewrite bool_decide_false in Hperm by done.
    rewrite IH; [|exact HP|].
    + rewrite !List.filter_app, (filter_set_prop P acc k x (HP k)).
      rewrite bool_decide_false by done.
      rewrite List.filter_app. simpl. rewrite <- app_assoc.
      by destruct (P k).
    + rewrite Hperm. simpl. by rewrite Permutation_middle.
Qed.

Lemma NoDup_kept_keys props :
  own_keys (map fst props) = true ->
  own_keys (map fst (map member_image (kept props))) = true.
Proof.
  intros Hkeys. rewrite map_map. simpl.
  eapply own_keys_sublist; [|exact Hkeys].
  apply (fmap_sublist fst). unfold kept. apply sublist_filter.
Qed.

Lemma concat_elem_text_head x l rest :
  starts_value (String.concat "," (map elem_text (x :: l)) +:+ rest) = true.
Proof.
  destruct l as [|y l].
  - apply elem_text_head.
  - change (String.concat "," (map elem_text (x :: y :: l)))
      with (elem_text x +:+ "," +:+ String.concat "," (map elem_text (y :: l))).
    rewrite append_assoc. apply elem_text_head.
Qed.

Lemma concat_member_text_head kv l rest :
  exists s, String.concat "," (map member_text (kv :: l)) +:+ rest
            = quote kv.1 +:+ ":" +:+ s.
Proof.
  destruct l as [|y l].
  - exists (elem_text kv.2 +:+ rest). simpl. unfold member_text.
    by rewrite !append_assoc.
  - change (String.concat "," (map member_text (kv :: y :: l)))
      with (member_text kv +:+ "," +:+ String.concat "," (map member_text (y :: l))).
    eexists. unfold member_text. rewrite !append_assoc. reflexivity.
Qed.

Lemma parse_value_open_object f k s :
  parse_value (S f) (String "{" (quote k +:+ s)) =
    match parse_members f (quote k +:+ s) with
    | Some (members, rest) => Some (VObj (define_all members), rest)
    | None => None
    end.
Proof. reflexivity. Qed.

(** *** The round trip *)

(** The text [JSON.stringify] writes for a value reads back as the image
    of the value. *)
Theorem parse_stringify v : well_formed v = true -> roundtrips v.
Proof.
  induction v as [| | b | n | s | g | elems IH | props IH] using value_ind';
    intros Hwf fuel rest Hfuel Hrest.
  - destruct fuel; [simpl in Hfuel; lia|reflexivity].
  - destruct fuel; [simpl in Hfuel; lia|reflexivity].
  - destruct fuel; [simpl in Hfuel; lia|]. by destruct b.
  - destruct fuel; [simpl in Hfuel; lia|]. by apply parse_value_number.
  - destruct fuel; [simpl in Hfuel; lia|].
    change (elem_text (VStr s)) with (quote s). unfold quote.
    change (String double_quote (escape s +:+ String double_quote "") +:+ rest)
      with (String double_quote ((escape s +:+ String double_quote "") +:+ rest)).
    rewrite append_assoc.
    change (String double_quote "" +:+ rest) with (String double_quote rest).
    change (parse_value (S fuel) (String double_quote (escape s +:+ String double_quote rest)))
      with (match parse_string (escape s +:+ String double_quote rest) with
            | Some (str, rest) => Some (VStr str, rest)
            | None => None
            end).
    by rewrite parse_string_escape.
  - destruct fuel; [simpl in Hfuel; lia|reflexivity].
  - change (elem_text (VArr elems))
      with ("[" +:+ String.concat "," (map elem_text elems) +:+ "]") in *.
    change (elem_image (VArr elems)) with (VArr (map elem_image elems)).
    rewrite !length_append in Hfuel. change (String.length "[") with 1 in Hfuel.
    change (String.length "]") with 1 in Hfuel.
    destruct fuel as [|f]; [exfalso; clear -Hfuel; lia|].
    destruct elems as [|x l]; [reflexivity|].
    rewrite !append_assoc.
    change ("[" +:+ String.concat "," (map elem_text (x :: l)) +:+ "]" +:+ rest)
      with (String "[" (String.concat "," (map elem_text (x :: l)) +:+ String "]" rest)).
    rewrite parse_value_open_array by apply concat_elem_text_head.
    rewrite parse_elements_roundtrip; [reflexivity| |done|clear -Hfuel; lia].
    simpl in Hwf. apply andb_true_iff in Hwf as [Hx Hl].
    apply Forall_cons; split.
    + apply Forall_inv in IH. by apply IH.
    + apply Forall_inv_tail in IH. rewrite forallb_forall in Hl.
      rewrite Forall_forall in IH. apply Forall_forall. intros y Hy.
      apply IH; [done|]. apply Hl. by apply list_elem_of_In.
  - simpl in Hwf. apply andb_true_iff in Hwf as [Hnd Hwf].
    change (elem_text (VObj props))
      with ("{" +:+ String.concat ","
              (flat_map (fun kv => match stringify kv.2 with
                                   | Some t => [quote kv.1 +:+ ":" +:+ t]
                                   | None => []
                                   end) props) +:+ "}") in *.
    change (elem_image (VObj props))
      with (VObj (flat_map (fun kv => match image kv.2 with
                                      | Some y => [(kv.1, y)]
                                      | None => []
                                      end) props)).
    rewrite member_texts_kept in *. rewrite member_images_kept.
    rewrite !length_append in Hfuel. change (String.length "{") with 1 in Hfuel.
    change (String.length "}") with 1 in Hfuel.
    destruct fuel as [|f]; [exfalso; clear -Hfuel; lia|].
    assert (Hkept : Forall (fun kv => roundtrips kv.2) (kept props)).
    { rewrite forallb_forall in Hwf. rewrite Forall_forall in IH.
      apply Forall_forall. intros kv Hkv.
      apply list_elem_of_filter in Hkv as [_ Hkv].
      apply IH; [done|]. apply Hwf. by apply list_elem_of_In. }
    pose proof (NoDup_kept_keys props Hnd) as Hkeys.
    destruct (kept props) as [|kv l] eqn:Hk; [reflexivity|].
    rewrite !append_assoc.
    change ("{" +:+ String.concat "," (map member_text (kv :: l)) +:+ "}" +:+ rest)
      with (String "{" (String.concat "," (map member_text (kv :: l)) +:+ String "}" rest)).
    destruct (concat_member_text_head kv l (String "}" rest)) as [s Hs].
    rewrite Hs, parse_value_open_object, <- Hs.
    rewrite parse_members_roundtrip; [|done|done|clear -Hfuel; lia].
    by rewrite define_all_NoDup.
Qed.


Lemma append_nil_r (s : string) : s +:+ "" = s.
Proof. induction s as [|c s IH]; simpl; [reflexivity|by rewrite IH]. Qed.

(** Parsing the text of a value gives the value's image. *)
Lemma JSON_parse_stringify v text :
  well_formed v = true -> stringify v = Some text -> JSON_parse text = image v.
Proof.
  intros Hwf Htext.
  pose proof (parse_stringify v Hwf (S (String.length text)) "") as Hparse.
  destruct (image_Some v text Htext) as [y Hy].
  assert (Ht : elem_text v = text) by (unfold elem_text; by rewrite Htext).
  assert (Hi : elem_image v = y) by (unfold elem_image; by rewrite Hy).
  rewrite Ht, Hi, append_nil_r in Hparse. unfold JSON_parse.
  rewrite Hparse; [by rewrite Hy|lia|reflexivity].
Qed.

Lemma json_data_well_formed v : json_data v = true -> well_formed v = true.
Proof.
  induction v as [| | b | n | s | g | elems IH | props IH] using value_ind';
    simpl; try done.
  - intros Hall. rewrite forallb_forall in Hall. apply forallb_forall.
    rewrite Forall_forall in IH. intros x Hx.
    apply IH; [by apply list_elem_of_In|by apply Hall].
  - intros [Hnd Hall]%andb_true_iff. apply andb_true_iff. split; [done|].
    rewrite forallb_forall in Hall. apply forallb_forall.
    rewrite Forall_forall in IH. intros kv Hkv.
    apply IH; [by apply list_elem_of_In|by apply Hall].
Qed.

(** JSON data is its own image. *)
Lemma image_json_data v : json_data v = true -> image v = Some v.
Proof.
  induction v as [| | b | n | s | g | elems IH | props IH] using value_ind';
    simpl; try done.
  - intros Hall. do 2 f_equal. rewrite forallb_forall in Hall.
    rewrite Forall_forall in IH. rewrite <- (map_id elems) at 2.
    apply map_ext_in. intros x Hx.
    rewrite IH; [reflexivity|by apply list_elem_of_In|by apply Hall].
  - intros [_ Hall]%andb_true_iff. do 2 f_equal. rewrite forallb_forall in Hall.
    rewrite Forall_forall in IH.
    induction props as [|[k x] props IHprops]; [reflexivity|]. simpl.
    assert (Hx : image x = Some x).
    { apply (IH (k, x)); [by left|apply (Hall (k, x)); by left]. }
    rewrite Hx. simpl. f_equal.
    apply IHprops.
    + intros kv Hkv. apply IH. by right.
    + intros kv Hkv. apply Hall. by right.
Qed.

End JSONFacts.

(** ** Properties of the render context *)

Module RenderFacts.
Import JS Render.

Section Facts.

Context (call_result : history -> fid -> list value -> completion value)
        (renderSlot_result : history -> value -> completion value)
        (String_ : value -> string)
        (bold : string -> string)
        (isCSSRequest isScriptRequest : string -> bool)
        (URL_origin : string -> completion string)
        (createCanonicalURL : string -> string -> completion value).

Local Abbreviation render := (Render.render call_result renderSlot_result String_).
Local Abbreviation stringify_result := (Render.stringify_result String_).
Local Abbreviation createResult := (Render.createResult URL_origin createCanonicalURL).
Local Abbreviation createAstro :=
  (Render.createAstro call_result bold isCSSRequest isScriptRequest).
Local Abbreviation deprecation_message :=
  (Render.deprecation_message bold isCSSRequest isScriptRequest).

Lemma with_cache_same (this : Slots) : with_cache this (cache this) = this.
Proof. by destruct this. Qed.

Lemma has_with_cache (this : Slots) c name :
  has (with_cache this c) name = has this name.
Proof. reflexivity. Qed.

(** A cached name is answered from the cache: no event, same object. *)
Lemma render_cached (this : Slots) m name content h :
  slots this = Some m ->
  cache this !! name = Some content ->
  render this name [] h = (Normal (content, this), h).
Proof.
  intros Hm Hc. unfold Render.render. rewrite Hm, Hc. reflexivity.
Qed.

(** An existing name that is not cached is rendered and then cached. *)
Lemma render_uncached (this : Slots) m name res h :
  slots this = Some m ->
  has this name = true ->
  cache this !! name = None ->
  renderSlot_result h (get m name) = Normal res ->
  render this name [] h =
    (Normal (stringify_result res, cache_set this name (stringify_result res)),
     h ++ [EvRenderSlot (get m name)]).
Proof.
  intros Hm Hhas Hc Hres. unfold Render.render. rewrite Hm, Hc, Hhas. simpl.
  unfold bind, ret, renderSlot. simpl. rewrite Hres. reflexivity.
Qed.

(** C1: on an object whose slot map has the slot [name] and whose cache
    has nothing for it yet, two consecutive calls [render(name)] hand the
    slot to the renderer exactly once: the first call emits that one
    event and stores the string it returns in the cache under [name], the
    second call emits no event, leaves the object as it is and returns
    the same string. *)
Theorem render_twice_renders_once (this : Slots) m name res h :
  slots this = Some m ->
  has this name = true ->
  cache this !! name = None ->
  renderSlot_result h (get m name) = Normal res ->
  exists this1 h1,
    render this name [] h = (Normal (stringify_result res, this1), h1) /\
    h1 = h ++ [EvRenderSlot (get m name)] /\
    cache this1 !! name = Some (stringify_result res) /\
    render this1 name [] h1 = (Normal (stringify_result res, this1), h1).
Proof.
  intros Hm Hhas Hc Hres.
  exists (cache_set this name (stringify_result res)), (h ++ [EvRenderSlot (get m name)]).
  split; [by eapply render_uncached|].
  split; [reflexivity|].
  assert (Hin : cache (cache_set this name (stringify_result res)) !! name
                = Some (stringify_result res)) by apply lookup_insert_eq.
  split; [exact Hin|].
  by eapply render_cached.
Qed.

(** C5: a call [render(name, args)] with arguments, on a slot whose
    function returns content with exactly one embedded expression that is
    a function, calls the slot function, calls that expression with the
    arguments and renders what it returns.  Whatever the cache holds, the
    result is the same and the cache is the same afterwards. *)
Theorem render_with_args_bypasses_cache (this : Slots) m name args
    f component expression slot res h (c : gmap string value) :
  args <> [] ->
  slots this = Some m ->
  get m name = VFun f ->
  call_result h f [] = Normal component ->
  get_prop component "expressions" = VArr [VFun expression] ->
  call_result (h ++ [EvCall f []]) expression args = Normal slot ->
  renderSlot_result (h ++ [EvCall f []] ++ [EvCall expression args]) slot
    = Normal res ->
  render (with_cache this c) name args h =
    (Normal (stringify_result res, with_cache this c),
     h ++ [EvCall f []] ++ [EvCall expression args] ++ [EvRenderSlot slot]).
Proof.
  intros Hargs Hm Hf Hcomp Hexpr Hslot Hres.
  unfold Render.render. simpl. rewrite Hm.
  destruct args as [|a args]; [done|]. simpl.
  unfold has. simpl. rewrite Hm, Hf. simpl.
  unfold bind, call, ret. rewrite Hcomp.
  assert (Htr : truthy component = true).
  { destruct component; simpl in Hexpr; try discriminate; reflexivity. }
  unfold getFunctionExpression. rewrite Htr, Hexpr. simpl.
  rewrite Hslot. unfold renderSlot. simpl.
  rewrite <- !app_assoc in *. simpl in *. rewrite Hres. reflexivity.
Qed.

Lemma this_defines_inherited own key :
  In key inherited_properties -> this_defines own key = true.
Proof.
  intros Hin. unfold this_defines. apply orb_true_iff. right.
  apply existsb_exists. exists key. split; [exact Hin|apply String.eqb_refl].
Qed.

(** The constructor's loop stops at the first key the object already
    defines; a reserved key among the keys makes it stop for sure. *)
Lemma define_slot_properties_reserved keys : forall own key,
  In key keys -> In key inherited_properties ->
  exists k, In k keys /\
    define_slot_properties own keys = Throw (Error (reserved_slot_message k)).
Proof.
  induction keys as [|k0 keys IH]; intros own key Hin Hres; [destruct Hin|].
  simpl. destruct (this_defines own k0) eqn:Hdef.
  - exists k0. split; [by left|reflexivity].
  - destruct Hin as [->|Hin].
    + rewrite (this_defines_inherited own key Hres) in Hdef. discriminate.
    + destruct (IH (own ++ [k0]) key Hin Hres) as (k & Hk & Heq).
      exists k. split; [by right|exact Heq].
Qed.

(** C6: a slot map with a key that is the name of a property a [Slots]
    object already has (such as [has] or [render]) makes the constructor
    throw the reserved-name error for one of the map's keys.  The
    constructor emits no event (it is not a computation in [M]), and
    [createAstro] throws the same error, so no [Astro] object exists on
    which a slot could be rendered. *)
Theorem reserved_slot_name_throws (result : SSRResult) m key astroGlobal props :
  In key (Object_keys m) ->
  In key inherited_properties ->
  exists k, In k (Object_keys m) /\
    Slots_constructor result (Some m) = Throw (Error (reserved_slot_message k)) /\
    createAstro result astroGlobal props (Some m)
      = Throw (Error (reserved_slot_message k)).
Proof.
  intros Hin Hres.
  destruct (define_slot_properties_reserved (Object_keys m) [] key Hin Hres)
    as (k & Hk & Heq).
  exists k. split; [exact Hk|].
  unfold Render.createAstro, Slots_constructor. rewrite Heq. by split.
Qed.

(** The result object keeps the arguments it was created from. *)
Lemma createResult_args (args : CreateResultArgs) result :
  createResult args = Normal result -> closure_args result = args.
Proof.
  unfold Render.createResult.
  destruct (URL_origin _); [|discriminate].
  destruct (createCanonicalURL _ _); [|discriminate].
  by intros [= <-].
Qed.

(** C2: once the slot map is accepted, [createAstro] returns an [Astro]
    object in either mode.  With [ssr = true] its [redirect("/foo")]
    returns a response with status 301 whose [Location] header is
    ["/foo"]; with [ssr = false] every call of [redirect] throws the
    "only available with SSR" error, and only the call does. *)
Theorem redirect_by_mode (args : CreateResultArgs) result astroGlobal props
    slots astroSlots :
  createResult args = Normal result ->
  Slots_constructor result slots = Normal astroSlots ->
  exists Astro,
    createAstro result astroGlobal props slots = Normal Astro /\
    (ssr args = true -> forall h, exists r,
       Astro_redirect Astro "/foo" h = (Normal r, h) /\
       status r = 301%Z /\ header r "Location" = Some "/foo") /\
    (ssr args = false -> forall path h,
       Astro_redirect Astro path h =
         (Throw (Error "Oops, you are trying to use Astro.redirect, which is only available with SSR."),
          h)).
Proof.
  intros Hres Hslots.
  pose proof (createResult_args args result Hres) as Hargs.
  unfold Render.createAstro. rewrite Hslots, Hargs.
  eexists. split; [reflexivity|]. simpl. unfold redirect. split.
  - intros -> h. eexists. split; [reflexivity|]. by split.
  - intros -> path h. reflexivity.
Qed.

(** C7: with [legacyBuild = false], [Astro.resolve(path)] returns the
    empty string for every [path] and does not throw; the one event of
    the call is the deprecation warning handed to the logging sink. *)
Theorem resolve_shim_returns_empty (args : CreateResultArgs) result astroGlobal
    props slots Astro path h :
  createResult args = Normal result ->
  createAstro result astroGlobal props slots = Normal Astro ->
  legacyBuild args = false ->
  Astro_resolve Astro path h =
    (Normal (VStr ""),
     h ++ [EvWarn (logging args) "deprecation" (deprecation_message path)]).
Proof.
  intros Hres HAstro Hlegacy.
  pose proof (createResult_args args result Hres) as Hargs.
  unfold Render.createAstro in HAstro.
  destruct (Slots_constructor result slots); [|discriminate].
  inversion HAstro; subst Astro; clear HAstro. simpl.
  rewrite Hargs. unfold resolve_shim. rewrite Hlegacy. reflexivity.
Qed.

End Facts.

(** *** The theorems at the concrete inputs of [Examples] *)

Lemma render_twice_renders_once_witness :
  exists this1 h1,
    Render.render Examples.call_result Examples.renderSlot_result Examples.String_
      Examples.this "default" [] [] = (Normal (VStr "<p>hi</p>", this1), h1) /\
    h1 = [EvRenderSlot (VFun 1)] /\
    cache this1 !! "default" = Some (VStr "<p>hi</p>") /\
    Render.render Examples.call_result Examples.renderSlot_result Examples.String_
      this1 "default" [] h1 = (Normal (VStr "<p>hi</p>", this1), h1).
Proof.
  apply (render_twice_renders_once Examples.call_result Examples.renderSlot_result
           Examples.String_ Examples.this Examples.slot_map "default"
           (VStr "<p>hi</p>") []); reflexivity.
Defined.

Lemma render_with_args_bypasses_cache_witness :
  Render.render Examples.call_result Examples.renderSlot_result Examples.String_
    (with_cache Examples.this {["default" := VStr "cached"]}) "default"
    [VNum 1; VNum 2] []
  = (Normal (VStr "row", with_cache Examples.this {["default" := VStr "cached"]}),
     [EvCall 1 []; EvCall 2 [VNum 1; VNum 2]; EvRenderSlot (VStr "row")]).
Proof.
  apply (render_with_args_bypasses_cache Examples.call_result
           Examples.renderSlot_result Examples.String_ Examples.this
           Examples.slot_map "default" [VNum 1; VNum 2] 1%positive
           (VObj [("expressions", VArr [VFun 2])]) 2%positive (VStr "row")
           (VStr "row") []
           {["default" := VStr "cached"]});
    [discriminate|reflexivity..].
Defined.

Lemma reserved_slot_name_throws_witness :
  exists k, In k ["default"; "has"] /\
    Slots_constructor (Examples.result true false)
      (Some [("default", VFun 1); ("has", VFun 2)])
      = Throw (Error (reserved_slot_message k)) /\
    Render.createAstro Examples.call_result Examples.bold Examples.isCSSRequest
      Examples.isScriptRequest (Examples.result true false) (VObj []) (VObj [])
      (Some [("default", VFun 1); ("has", VFun 2)])
      = Throw (Error (reserved_slot_message k)).
Proof.
  apply (reserved_slot_name_throws Examples.call_result Examples.bold
           Examples.isCSSRequest Examples.isScriptRequest
           (Examples.result true false)
           [("default", VFun 1); ("has", VFun 2)] "has" (VObj []) (VObj []));
    simpl; right; left; reflexivity.
Defined.

Lemma redirect_by_mode_witness :
  (exists Astro,
     Render.createAstro Examples.call_result Examples.bold Examples.isCSSRequest
       Examples.isScriptRequest (Examples.result true false) (VObj []) (VObj [])
       (Some Examples.slot_map) = Normal Astro /\
     exists r, Astro_redirect Astro "/foo" [] = (Normal r, []) /\
       status r = 301%Z /\ header r "Location" = Some "/foo") /\
  (exists Astro,
     Render.createAstro Examples.call_result Examples.bold Examples.isCSSRequest
       Examples.isScriptRequest (Examples.result false false) (VObj []) (VObj [])
       (Some Examples.slot_map) = Normal Astro /\
     Astro_redirect Astro "/foo" [] =
       (Throw (Error "Oops, you are trying to use Astro.redirect, which is only available with SSR."),
        [])).
Proof.
  split.
  - destruct (redirect_by_mode Examples.call_result Examples.bold
                Examples.isCSSRequest Examples.isScriptRequest Examples.URL_origin
                Examples.createCanonicalURL (Examples.args true false)
                (Examples.result true false) (VObj []) (VObj [])
                (Some Examples.slot_map) Examples.this eq_refl eq_refl)
      as (Astro & HAstro & Htrue & _).
    exists Astro. split; [exact HAstro|exact (Htrue eq_refl [])].
  - destruct (redirect_by_mode Examples.call_result Examples.bold
                Examples.isCSSRequest Examples.isScriptRequest Examples.URL_origin
                Examples.createCanonicalURL (Examples.args false false)
                (Examples.result false false) (VObj []) (VObj [])
                (Some Examples.slot_map)
                (Examples.with_result Examples.this (Examples.result false false))
                eq_refl eq_refl)
      as (Astro & HAstro & _ & Hfalse).
    exists Astro. split; [exact HAstro|exact (Hfalse eq_refl "/foo" [])].
Defined.

Lemma resolve_shim_returns_empty_witness :
  exists Astro,
    Render.createAstro Examples.call_result Examples.bold Examples.isCSSRequest
      Examples.isScriptRequest (Examples.result true false) (VObj []) (VObj [])
      None = Normal Astro /\
    Astro_resolve Astro "./main.css" [] =
      (Normal (VStr ""),
       [EvWarn (VObj []) "deprecation"
          (Render.deprecation_message Examples.bold Examples.isCSSRequest
             Examples.isScriptRequest "./main.css")]).
Proof.
  eexists. split; [reflexivity|].
  apply (resolve_shim_returns_empty Examples.call_result Examples.bold
           Examples.isCSSRequest Examples.isScriptRequest Examples.URL_origin
           Examples.createCanonicalURL (Examples.args true false)
           (Examples.result true false) (VObj []) (VObj []) None);
    reflexivity.
Defined.

End RenderFacts.

(** ** Properties of the build plugin *)

Module PluginFacts.
Import JS JSON Plugin.

Section Facts.

Context (serializeRouteData : value -> value)
        (BEFORE_HYDRATION_SCRIPT_ID : string)
        (astroRemark : value).

Local Abbreviation route_info := (Plugin.route_info serializeRouteData).
Local Abbreviation push_routes := (Plugin.push_routes serializeRouteData).
Local Abbreviation buildManifest :=
  (Plugin.buildManifest serializeRouteData BEFORE_HYDRATION_SCRIPT_ID astroRemark).
Local Abbreviation generateBundle :=
  (Plugin.generateBundle serializeRouteData BEFORE_HYDRATION_SCRIPT_ID astroRemark).
Local Abbreviation route_built := (Plugin.route_built serializeRouteData).

Lemma alloc_fresh o (σ : gmap loc object) :
  σ !! (alloc o σ).1 = None /\ (alloc o σ).2 = <[(alloc o σ).1 := o]> σ.
Proof.
  unfold alloc. simpl. split; [|reflexivity].
  apply not_elem_of_dom, is_fresh.
Qed.

Lemma route_built_mono σ0 σ σ' σ1 pageData info :
  σ0 ⊆ σ -> σ' ⊆ σ1 ->
  route_built σ σ' pageData info -> route_built σ0 σ1 pageData info.
Proof.
  intros H0 H1 (Hfile & Hroute & (es & Hes & Hset) & (ls & Hls & Hcss)).
  split; [done|]. split; [done|]. split.
  - exists es. split; [by eapply lookup_weaken|].
    intros set Hlook. apply Hset. by eapply lookup_weaken.
  - exists ls. split; [by eapply lookup_weaken|].
    intros set Hlook. apply Hcss. by eapply lookup_weaken.
Qed.

Lemma route_info_spec pageData (σ : gmap loc object) :
  σ ⊆ (route_info pageData σ).2 /\
  route_built σ (route_info pageData σ).2 pageData (route_info pageData σ).1.
Proof.
  unfold Plugin.route_info, seq, Array_from, Set_values, seq, pure, alloc.
  set (set := match σ !! scripts pageData with
              | Some (OSet elems) => elems
              | _ => []
              end).
  set (a := fresh (dom σ)).
  assert (Ha : σ !! a = None) by apply not_elem_of_dom, is_fresh.
  set (σ2 := (match hoisted pageData with
              | Some h => Array_unshift a h
              | None => fun σ => (tt, σ)
              end (<[a := OArray set]> σ)).2).
  assert (Hσ2 : σ2 = <[a := OArray (match hoisted pageData with
                                     | Some h => h :: set
                                     | None => set
                                     end)]> σ).
  { unfold σ2. destruct (hoisted pageData) as [h|]; [|reflexivity].
    unfold Array_unshift. simpl. rewrite lookup_insert_eq.
    by rewrite insert_insert_eq. }
  destruct (match hoisted pageData with
            | Some h => Array_unshift a h
            | None => fun σ => (tt, σ)
            end (<[a := OArray set]> σ)) as [[] σ2'] eqn:Hrun.
  simpl in σ2. subst σ2. subst σ2'. simpl.
  set (σ2 := <[a := _]> σ).
  set (b := fresh (dom σ2)).
  assert (Hb : σ2 !! b = None) by apply not_elem_of_dom, is_fresh.
  assert (Hab : a <> b).
  { intros <-. unfold σ2 in Hb. by rewrite lookup_insert_eq in Hb. }
  assert (Hsub : σ ⊆ <[b := OArray match σ2 !! css pageData with
                                    | Some (OSet elems) => elems
                                    | _ => []
                                    end]> σ2).
  { apply insert_subseteq_r; [|by apply insert_subseteq].
    unfold σ2 in Hb. by rewrite lookup_insert_ne in Hb. }
  split; [exact Hsub|].
  split; [reflexivity|]. split; [reflexivity|]. split.
  - eexists. split.
    + rewrite lookup_insert_ne by done. unfold σ2. apply lookup_insert_eq.
    + intros elems Hlook. unfold set. by rewrite Hlook.
  - eexists. split; [apply lookup_insert_eq|].
    intros elems Hlook.
    assert (Hlook2 : σ2 !! css pageData = Some (OSet elems)).
    { eapply lookup_weaken; [exact Hlook|]. by apply insert_subseteq. }
    by rewrite Hlook2.
Qed.

Lemma push_routes_spec pages : forall routes (σ : gmap loc object),
  σ ⊆ (push_routes pages routes σ).2 /\
  exists new,
    (push_routes pages routes σ).1 = routes ++ new /\
    Forall2 (route_built σ (push_routes pages routes σ).2) pages new.
Proof.
  induction pages as [|pageData pages IH]; intros routes σ.
  - simpl. split; [done|]. exists []. split; [by rewrite app_nil_r|constructor].
  - simpl. unfold seq.
    pose proof (route_info_spec pageData σ) as [Hsub Hbuilt].
    destruct (route_info pageData σ) as [info σ1]. simpl in Hsub, Hbuilt.
    destruct (IH (routes ++ [info]) σ1) as (Hsub1 & new & Hnew & Hall).
    split; [by etrans|].
    exists (info :: new). split; [by rewrite Hnew, <- app_assoc|].
    constructor.
    + eapply route_built_mono; [reflexivity|exact Hsub1|exact Hbuilt].
    + eapply Forall2_impl; [exact Hall|].
      intros p r Hpr.
      eapply route_built_mono; [exact Hsub|reflexivity|exact Hpr].
Qed.

(** What [buildManifest] returns, and the store it leaves. *)
Lemma buildManifest_spec opts internals (σ : gmap loc object) :
  let m := (buildManifest opts internals σ).1 in
  let σ' := (buildManifest opts internals σ).2 in
  σ ⊆ σ' /\
  Forall2 (route_built σ σ') (eachPageData internals) (routes m) /\
  σ !! entryModules m = None /\
  (exists props,
     σ' !! entryModules m = Some (ODict props) /\
     assoc props BEFORE_HYDRATION_SCRIPT_ID = Some no_before_hydration_script /\
     own_keys (map fst props) = true /\
     forall entries,
       σ !! entrySpecifierToBundleMap internals = Some (OMap entries) ->
       props = set_prop (define_all entries) BEFORE_HYDRATION_SCRIPT_ID
                        no_before_hydration_script) /\
  site m = config_site (astroConfig opts) /\
  markdown_render m = [astroRemark; config_markdown (astroConfig opts)] /\
  pageMap m = VNull /\
  renderers m = [].
Proof.
  unfold Plugin.buildManifest, seq.
  destruct (push_routes_spec (eachPageData internals) [] σ)
    as (Hsub & new & Hnew & Hall).
  destruct (push_routes (eachPageData internals) [] σ) as [routes σ1].
  simpl in Hsub, Hnew, Hall. subst routes.
  unfold Map_entries, Object_fromEntries, alloc, Object_set, pure. simpl.
  set (entries := match σ1 !! entrySpecifierToBundleMap internals with
                  | Some (OMap entries) => entries
                  | _ => []
                  end).
  set (e := fresh (dom σ1)).
  assert (He : σ1 !! e = None) by apply not_elem_of_dom, is_fresh.
  rewrite lookup_insert_eq. simpl. rewrite insert_insert_eq.
  assert (He0 : σ !! e = None).
  { destruct (σ !! e) as [o|] eqn:Ho; [|done].
    by rewrite (lookup_weaken _ _ _ _ Ho Hsub) in He. }
  assert (Hsub' : σ1 ⊆ <[e := ODict (set_prop (define_all entries)
                    BEFORE_HYDRATION_SCRIPT_ID no_before_hydration_script)]> σ1)
    by by apply insert_subseteq.
  split; [by etrans|]. split.
  { eapply Forall2_impl; [exact Hall|]. intros p r Hpr.
    eapply route_built_mono; [reflexivity|exact Hsub'|exact Hpr]. }
  split; [exact He0|]. split.
  { eexists. split; [apply lookup_insert_eq|]. split.
    { rewrite JSONFacts.assoc_set_prop. by rewrite String.eqb_refl. }
    split; [apply JSONFacts.set_prop_own_keys, JSONFacts.define_all_own_keys|].
    intros es Hes. unfold entries.
    by rewrite (lookup_weaken _ _ _ _ Hes Hsub). }
  done.
Qed.

(** C3: for every page, in page order, the script array of its route
    record holds the page's scripts in their order, with the hoisted
    script in front when the page has one; a hoisted script that is the
    empty string is none, by the test [if (pageData.hoistedScript)].  (A
    page with hoisted script [H] and scripts [A; B] gets [H; A; B]; one
    without hoisted script and with scripts [C] gets [C].) *)
Theorem hoisted_script_first opts internals (σ : gmap loc object) :
  Forall2
    (fun pageData info =>
       forall set, σ !! scripts pageData = Some (OSet set) ->
         (buildManifest opts internals σ).2 !! route_scripts info =
           Some (OArray (match hoistedScript pageData with
                         | Some h => if String.eqb h "" then set else h :: set
                         | None => set
                         end)))
    (eachPageData internals) (routes (buildManifest opts internals σ).1).
Proof.
  destruct (buildManifest_spec opts internals σ) as (_ & Hall & _).
  eapply Forall2_impl; [exact Hall|].
  intros p r (_ & _ & (es & Hes & Hset) & _) set Hlook.
  rewrite Hes, (Hset set Hlook). unfold hoisted.
  destruct (hoistedScript p) as [h|]; [|reflexivity].
  by destruct (String.eqb h "").
Qed.

(** C4: whatever the internals' table holds, the entry-module record of
    the manifest maps [BEFORE_HYDRATION_SCRIPT_ID] to the fixed
    placeholder URI. *)
Theorem entryModules_before_hydration opts internals (σ : gmap loc object) :
  exists props,
    (buildManifest opts internals σ).2 !! entryModules (buildManifest opts internals σ).1
      = Some (ODict props) /\
    assoc props BEFORE_HYDRATION_SCRIPT_ID = Some no_before_hydration_script.
Proof.
  destruct (buildManifest_spec opts internals σ)
    as (_ & _ & _ & (props & Hlook & Hassoc & _) & _).
  by exists props.
Qed.

(** C8: the manifest [buildManifest] returns always has [pageMap] equal
    to [null] and an empty [renderers] list. *)
Theorem pageMap_and_renderers_empty opts internals (σ : gmap loc object) :
  pageMap (buildManifest opts internals σ).1 = VNull /\
  renderers (buildManifest opts internals σ).1 = [].
Proof.
  destruct (buildManifest_spec opts internals σ)
    as (_ & _ & _ & _ & _ & _ & Hpm & Hr).
  by split.
Qed.

(** C10: [buildManifest] changes no object that existed before the call.
    In particular the [Map] [internals.entrySpecifierToBundleMap] holds
    the same entries afterwards; the entry-module record is another, new
    object, which holds the entries with the override applied. *)
Theorem buildManifest_preserves_inputs opts internals (σ : gmap loc object) entries :
  σ !! entrySpecifierToBundleMap internals = Some (OMap entries) ->
  σ ⊆ (buildManifest opts internals σ).2 /\
  (buildManifest opts internals σ).2 !! entrySpecifierToBundleMap internals
    = Some (OMap entries) /\
  entryModules (buildManifest opts internals σ).1
    <> entrySpecifierToBundleMap internals /\
  (buildManifest opts internals σ).2 !! entryModules (buildManifest opts internals σ).1
    = Some (ODict (set_prop (define_all entries) BEFORE_HYDRATION_SCRIPT_ID
                            no_before_hydration_script)).
Proof.
  intros Hmap.
  destruct (buildManifest_spec opts internals σ)
    as (Hsub & _ & Hfresh & (props & Hlook & _ & _ & Hprops) & _).
  split; [exact Hsub|]. split; [by eapply lookup_weaken|]. split.
  - intros Heq. rewrite Heq, Hmap in Hfresh. discriminate.
  - by rewrite Hlook, (Hprops entries Hmap).
Qed.

Lemma strip_prefix_append p s : strip_prefix p (p +:+ s) = Some s.
Proof.
  induction p as [|c p IH]; [reflexivity|]. simpl. by rewrite Ascii.eqb_refl.
Qed.

Lemma strip_prefix_Some p : forall s r, strip_prefix p s = Some r -> s = p +:+ r.
Proof.
  induction p as [|c p IH]; intros s r; simpl.
  - by intros [= ->].
  - destruct s as [|d s]; [discriminate|].
    destruct (Ascii.eqb_spec c d) as [->|_]; [|discriminate].
    intros Hs. by rewrite (IH s r Hs).
Qed.

Lemma match_placeholder_here q1 q2 post :
  is_quote q1 = true -> is_quote q2 = true ->
  match_placeholder (String q1 (manifestReplace +:+ String q2 post)) = Some post.
Proof.
  intros H1 H2. unfold match_placeholder.
  by rewrite H1, strip_prefix_append, H2.
Qed.

Lemma match_placeholder_Some s after :
  match_placeholder s = Some after ->
  exists q1 q2, is_quote q1 = true /\ is_quote q2 = true /\
    s = String q1 (manifestReplace +:+ String q2 after).
Proof.
  unfold match_placeholder. destruct s as [|q1 r]; [discriminate|].
  destruct (is_quote q1) eqn:H1; [|discriminate].
  destruct (strip_prefix manifestReplace r) as [[|q2 r']|] eqn:Hr; try discriminate.
  destruct (is_quote q2) eqn:H2; [|discriminate]. intros [= ->].
  exists q1, q2. by rewrite (strip_prefix_Some _ _ _ Hr).
Qed.

Lemma replace_placeholder_eq code text :
  replace_placeholder code text =
    match match_placeholder code with
    | Some after => text +:+ after
    | None =>
        match code with
        | String c rest => String c (replace_placeholder rest text)
        | EmptyString => ""
        end
    end.
Proof. by destruct code. Qed.

(** A code with a quoted placeholder somewhere has a first one, and that
    one is what the replacement takes the place of. *)
Lemma replace_placeholder_first text pre : forall q1 q2 post,
  is_quote q1 = true -> is_quote q2 = true ->
  exists before after q1' q2',
    is_quote q1' = true /\ is_quote q2' = true /\
    pre +:+ String q1 (manifestReplace +:+ String q2 post)
      = before +:+ String q1' (manifestReplace +:+ String q2' after) /\
    replace_placeholder (pre +:+ String q1 (manifestReplace +:+ String q2 post)) text
      = before +:+ text +:+ after.
Proof.
  induction pre as [|c pre IH]; intros q1 q2 post H1 H2.
  - exists "", post, q1, q2. split; [done|]. split; [done|]. split; [done|].
    change ("" +:+ String q1 (manifestReplace +:+ String q2 post))
      with (String q1 (manifestReplace +:+ String q2 post)).
    by rewrite replace_placeholder_eq, match_placeholder_here.
  - change (String c pre +:+ String q1 (manifestReplace +:+ String q2 post))
      with (String c (pre +:+ String q1 (manifestReplace +:+ String q2 post))).
    rewrite replace_placeholder_eq.
    destruct (match_placeholder _) as [after|] eqn:Hmatch.
    + destruct (match_placeholder_Some _ _ Hmatch) as (q1' & q2' & H1' & H2' & Heq).
      exists "", after, q1', q2'. by rewrite Heq.
    + destruct (IH q1 q2 post H1 H2)
        as (before & after & q1' & q2' & H1' & H2' & Heq & Hrep).
      exists (String c before), after, q1', q2'.
      split; [done|]. split; [done|]. split.
      * rewrite Heq. reflexivity.
      * rewrite Hrep. reflexivity.
Qed.

Lemma json_data_strings elems : json_data (VArr (map VStr elems)) = true.
Proof. simpl. by induction elems. Qed.

Lemma json_data_dict (props : list (string * string)) :
  own_keys (map fst props) = true ->
  json_data (VObj (map (fun kv => (kv.1, VStr kv.2)) props)) = true.
Proof.
  intros Hkeys. simpl. apply andb_true_iff. split.
  - by rewrite map_map.
  - clear Hkeys. by induction props.
Qed.

Lemma json_data_route_value σ σ' pageData info :
  route_built σ σ' pageData info ->
  json_data (serializeRouteData (route pageData)) = true ->
  json_data (route_value σ' info) = true.
Proof.
  intros (_ & Hroute & (es & Hes & _) & (ls & Hls & _)) Hjson.
  unfold route_value, object_value. rewrite Hes, Hls, Hroute.
  pose proof (json_data_strings es) as Hscripts.
  pose proof (json_data_strings ls) as Hlinks.
  cbn [json_data forallb snd] in *. rewrite Hscripts, Hlinks, Hjson.
  reflexivity.
Qed.

Lemma json_data_routes σ σ' pages infos :
  Forall2 (route_built σ σ') pages infos ->
  Forall (fun pageData => json_data (serializeRouteData (route pageData)) = true)
         pages ->
  json_data (VArr (map (route_value σ') infos)) = true.
Proof.
  intros Hall. cbn [json_data].
  induction Hall as [|p r pages infos Hpr Hall IH]; [done|].
  intros [Hp Hpages]%Forall_cons. cbn [map forallb].
  rewrite (json_data_route_value _ _ _ _ Hpr Hp). by apply IH.
Qed.

(** The text of the manifest parses, and the parsed object has the
    manifest's [routes], [site] and [entryModules]. *)
Lemma manifest_parse opts internals (σ : gmap loc object) :
  well_formed astroRemark = true ->
  well_formed (config_markdown (astroConfig opts)) = true ->
  Forall (fun pageData => json_data (serializeRouteData (route pageData)) = true)
         (eachPageData internals) ->
  let m := (buildManifest opts internals σ).1 in
  let σ' := (buildManifest opts internals σ).2 in
  exists text parsed,
    stringify (manifest_value σ' m) = Some text /\
    JSON_parse text = Some parsed /\
    get_prop parsed "routes" = routes_value σ' m /\
    get_prop parsed "site" = site_value m /\
    get_prop parsed "entryModules" = entryModules_value σ' m.
Proof.
  intros Hremark Hmarkdown Hpages m σ'.
  destruct (buildManifest_spec opts internals σ)
    as (_ & Hall & _ & (props & Hlook & _ & Hnd & _) & Hsite & Hmd & Hpm & Hr).
  fold m σ' in Hall, Hlook, Hsite, Hmd, Hpm, Hr.
  assert (HR : json_data (routes_value σ' m) = true)
    by by eapply json_data_routes.
  assert (HE : json_data (entryModules_value σ' m) = true).
  { unfold entryModules_value, object_value. rewrite Hlook.
    by apply json_data_dict. }
  assert (HS : json_data (site_value m) = true \/ site_value m = VUndefined).
  { unfold site_value. destruct (site m); [by left|by right]. }
  assert (Hwf : well_formed (manifest_value σ' m) = true).
  { unfold manifest_value. rewrite Hmd, Hpm, Hr.
    cbn [well_formed forallb snd].
    rewrite (JSONFacts.json_data_well_formed _ HR),
            (JSONFacts.json_data_well_formed _ HE), Hremark, Hmarkdown.
    destruct HS as [HS| ->];
      [rewrite (JSONFacts.json_data_well_formed _ HS)|]; reflexivity. }
  destruct (stringify (manifest_value σ' m)) as [text|] eqn:Htext;
    [|discriminate].
  exists text. rewrite (JSONFacts.JSON_parse_stringify _ _ Hwf Htext).
  unfold manifest_value. rewrite Hmd, Hpm, Hr.
  cbn [image flat_map snd fst app].
  rewrite (JSONFacts.image_json_data _ HR), (JSONFacts.image_json_data _ HE).
  destruct HS as [HS|HS].
  - rewrite (JSONFacts.image_json_data _ HS). eexists. split; [reflexivity|].
    split; [reflexivity|]. by split.
  - rewrite HS. eexists. split; [reflexivity|]. split; [reflexivity|]. by split.
Qed.


End Facts.

(** *** The theorems at the concrete inputs of [Examples] *)

(** The manifest of the example build: the two script arrays, the
    entry-module record, and the code of the bundle afterwards. *)
Example example_scripts :
  map (fun info => Examples.store_after !! route_scripts info)
      (routes Examples.manifest)
  = [Some (OArray ["H"; "A"; "B"]); Some (OArray ["C"])].
Proof. vm_compute. reflexivity. Qed.

Example example_entryModules :
  Examples.store_after !! entryModules Examples.manifest
  = Some (ODict [("x.js", "chunks/x.123.js");
                 (Examples.BEFORE_HYDRATION_SCRIPT_ID, no_before_hydration_script)]).
Proof. vm_compute. reflexivity. Qed.

(** The two pages of the example: hoisted script [H] before the scripts
    [A], [B]; no hoisted script and the script [C]. *)
Lemma hoisted_script_first_witness :
  Forall2
    (fun expected info =>
       Examples.store_after !! route_scripts info = Some (OArray expected))
    [["H"; "A"; "B"]; ["C"]] (routes Examples.manifest).
Proof.
  pose proof (hoisted_script_first Examples.serializeRouteData
                Examples.BEFORE_HYDRATION_SCRIPT_ID Examples.astroRemark
                Examples.opts Examples.internals Examples.store) as Hall.
  change (eachPageData Examples.internals)
    with [Examples.page1; Examples.page2] in Hall.
  unfold Examples.manifest, Examples.store_after.
  apply Forall2_cons_inv_l in Hall as (r1 & rs & H1 & Hall & ->).
  apply Forall2_cons_inv_l in Hall as (r2 & rs' & H2 & Hall & ->).
  apply Forall2_nil_inv_l in Hall as ->.
  repeat constructor.
  - exact (H1 ["A"; "B"] eq_refl).
  - exact (H2 ["C"] eq_refl).
Defined.

Lemma buildManifest_preserves_inputs_witness :
  Examples.store ⊆ Examples.store_after /\
  Examples.store_after !! 5%positive
    = Some (OMap [("x.js", "chunks/x.123.js");
                  (Examples.BEFORE_HYDRATION_SCRIPT_ID, "chunks/bh.456.js")]) /\
  entryModules Examples.manifest <> 5%positive /\
  Examples.store_after !! entryModules Examples.manifest
    = Some (ODict (set_prop
                     (define_all [("x.js", "chunks/x.123.js");
                                  (Examples.BEFORE_HYDRATION_SCRIPT_ID,
                                   "chunks/bh.456.js")])
                     Examples.BEFORE_HYDRATION_SCRIPT_ID
                     no_before_hydration_script)).
Proof.
  apply (buildManifest_preserves_inputs Examples.serializeRouteData
           Examples.BEFORE_HYDRATION_SCRIPT_ID Examples.astroRemark
           Examples.opts Examples.internals Examples.store).
  reflexivity.
Defined.



End PluginFacts.

(** ** Further properties of [Slots] and of the [Astro] object *)

Module RenderExtras.
Import JS Render Conditions.

Section Facts.

Context (call_result : history -> fid -> list value -> completion value)
        (renderSlot_result : history -> value -> completion value)
        (String_ : value -> string)
        (bold : string -> string)
        (isCSSRequest isScriptRequest : string -> bool)
        (URL_origin : string -> completion string)
        (createCanonicalURL : string -> string -> completion value).

Local Abbreviation render := (Render.render call_result renderSlot_result String_).
Local Abbreviation stringify_result := (Render.stringify_result String_).
Local Abbreviation createResult := (Render.createResult URL_origin createCanonicalURL).
Local Abbreviation createAstro :=
  (Render.createAstro call_result bold isCSSRequest isScriptRequest).

(** X1: a [Slots] object built without a slot map has no slot and renders
    none: for every name and every argument list, [has] is false and
    [render] returns [undefined] without any external call. *)
Theorem no_slot_map_renders_nothing (this : Slots) name args h :
  slots this = None ->
  has this name = false /\
  render this name args h = (Normal (VUndefined, this), h).
Proof.
  intros Hnone. unfold has, Render.render. rewrite Hnone. by split.
Qed.

(** X2: a name under which the slot map has nothing, own or inherited
    from [Object.prototype], or has a falsy value, renders to [undefined]
    without any external call and without a change of the object, with or
    without arguments. *)
Theorem missing_slot_renders_nothing (this : Slots) m name args h :
  slots this = Some m ->
  truthy (get m name) = false ->
  cache this !! name = None ->
  has this name = false /\
  render this name args h = (Normal (VUndefined, this), h).
Proof.
  intros Hm Hfalsy Hcache.
  assert (Hhas : has this name = false) by (unfold has; by rewrite Hm).
  split; [exact Hhas|].
  unfold Render.render. rewrite Hm, Hcache, Hhas. simpl.
  by rewrite andb_false_r.
Qed.

(** X3: with arguments, a slot whose content does not yield a single
    truthy embedded expression is rendered as it is and the arguments are
    dropped: the slot function is called to look at its content, then the
    slot itself is handed to the renderer.  Nothing is cached. *)
Theorem render_with_args_falls_back (this : Slots) m name args f component res h
    (c : gmap string value) :
  args <> [] ->
  slots this = Some m ->
  get m name = VFun f ->
  call_result h f [] = Normal component ->
  truthy (getFunctionExpression component) = false ->
  renderSlot_result (h ++ [EvCall f []]) (VFun f) = Normal res ->
  render (with_cache this c) name args h =
    (Normal (stringify_result res, with_cache this c),
     h ++ [EvCall f []] ++ [EvRenderSlot (VFun f)]).
Proof.
  intros Hargs Hm Hf Hcomp Hexpr Hres.
  unfold Render.render. simpl. rewrite Hm.
  destruct args as [|a args]; [done|]. simpl.
  unfold has. simpl. rewrite Hm, Hf. simpl.
  unfold bind, call, ret. rewrite Hcomp, Hexpr.
  unfold renderSlot. rewrite Hres.
  by rewrite <- app_assoc.
Qed.

(** X4: a call with arguments neither reads nor writes the cache, on any
    path: with any other cache content the call emits the same events
    and ends the same way, and the object it returns is the one it was
    called on. *)
Theorem render_with_args_ignores_cache (this : Slots) name args h
    (c : gmap string value) :
  args <> [] ->
  render (with_cache this c) name args h =
    (match (render this name args h).1 with
     | Normal (v, _) => Normal (v, with_cache this c)
     | Throw e => Throw e
     end, (render this name args h).2).
Proof.
  intros Hargs. destruct args as [|a args]; [done|].
  unfold Render.render, has, bind, call, ret, throw, renderSlot. simpl.
  destruct (slots this) as [m|]; [|reflexivity].
  destruct (truthy (get m name)); [|reflexivity]. simpl.
  destruct (get m name) as [| | | | |f| |]; try reflexivity.
  destruct (call_result h f []) as [component|e]; [|reflexivity].
  destruct (truthy (getFunctionExpression component)).
  - destruct (getFunctionExpression component) as [| | | | |g| |];
      try reflexivity.
    destruct (call_result _ g _) as [slot|e]; [|reflexivity].
    by destruct (renderSlot_result _ slot).
  - by destruct (renderSlot_result _ (VFun f)).
Qed.

(** X5: a rendering that throws is not cached.  The error of the
    renderer is the error of [render], and the next [render] of the same
    name hands the slot to the renderer again. *)
Theorem failed_render_is_not_cached (this : Slots) m name e res h :
  slots this = Some m ->
  has this name = true ->
  cache this !! name = None ->
  renderSlot_result h (get m name) = Throw e ->
  renderSlot_result (h ++ [EvRenderSlot (get m name)]) (get m name) = Normal res ->
  render this name [] h = (Throw e, h ++ [EvRenderSlot (get m name)]) /\
  render this name [] (h ++ [EvRenderSlot (get m name)]) =
    (Normal (stringify_result res, cache_set this name (stringify_result res)),
     h ++ [EvRenderSlot (get m name)] ++ [EvRenderSlot (get m name)]).
Proof.
  intros Hm Hhas Hc Hthrow Hres.
  unfold Render.render. rewrite Hm, Hc, Hhas. simpl.
  unfold bind, ret, renderSlot. simpl. rewrite Hthrow, Hres.
  by rewrite <- app_assoc.
Qed.

(** X6: [render] only ever adds to the cache.  When a call returns, every
    entry the cache had is still there with its value, no name other
    than the rendered one has got an entry, and the slot map and the
    other fields are the same. *)
Theorem render_only_extends_cache (this : Slots) name args h v this' h' :
  render this name args h = (Normal (v, this'), h') ->
  cache this ⊆ cache this' /\
  (forall k, k <> name -> cache this' !! k = cache this !! k) /\
  slots this' = slots this /\
  result this' = result this /\
  own_properties this' = own_properties this.
Proof.
  unfold Render.render, bind, call, ret, throw, renderSlot.
  destruct (slots this) as [m|] eqn:Hm; [|by intros [= <- <- <-]].
  destruct (cache this !! name) as [cached|] eqn:Hcache.
  - destruct args as [|a args]; simpl.
    + by intros [= <- <- <-].
    + destruct (has this name); simpl; [|by intros [= <- <- <-]].
      destruct (get m name) as [| | | | |f| |]; try discriminate.
      destruct (call_result h f []) as [component|e]; [|discriminate].
      destruct (truthy (getFunctionExpression component)).
      * destruct (getFunctionExpression component) as [| | | | |g| |];
          try discriminate.
        destruct (call_result _ g _) as [slot|e]; [|discriminate].
        destruct (renderSlot_result _ slot); [|discriminate].
        by intros [= <- <- <-].
      * destruct (renderSlot_result _ (VFun f)); [|discriminate].
        by intros [= <- <- <-].
  - rewrite andb_false_r.
    destruct (has this name); simpl; [|by intros [= <- <- <-]].
    destruct args as [|a args]; simpl.
    + destruct (renderSlot_result h (get m name)) as [res|e]; [|discriminate].
      intros [= <- <- <-]. simpl. split; [by apply insert_subseteq|].
      split; [|done]. intros k Hk. by rewrite lookup_insert_ne.
    + destruct (get m name) as [| | | | |f| |]; try discriminate.
      destruct (call_result h f []) as [component|e]; [|discriminate].
      destruct (truthy (getFunctionExpression component)).
      * destruct (getFunctionExpression component) as [| | | | |g| |];
          try discriminate.
        destruct (call_result _ g _) as [slot|e]; [|discriminate].
        destruct (renderSlot_result _ slot); [|discriminate].
        by intros [= <- <- <-].
      * destruct (renderSlot_result _ (VFun f)); [|discriminate].
        by intros [= <- <- <-].
Qed.

Lemma textual_stringify_result res : textual (stringify_result res) = true.
Proof. by destruct res. Qed.

(** How a call of [render] that returns has come to its result. *)
Lemma render_returns (this : Slots) name args h v this' h' :
  render this name args h = (Normal (v, this'), h') ->
  (this' = this /\
   (v = VUndefined \/ cache this !! name = Some v \/
    exists res, v = stringify_result res)) \/
  (this' = cache_set this name v /\ exists res, v = stringify_result res).
Proof.
  unfold Render.render, bind, call, ret, throw, renderSlot.
  destruct (slots this) as [m|] eqn:Hm; [|intros [= <- <- <-]; left; auto].
  destruct (cache this !! name) as [cached|] eqn:Hcache;
    destruct args as [|a args]; simpl;
    try (intros [= <- <- <-]; left; by auto);
    destruct (has this name); simpl;
    try (intros [= <- <- <-]; left; by auto).
  - destruct (get m name) as [| | | | |f| |]; try discriminate.
    destruct (call_result h f []) as [component|e]; [|discriminate].
    destruct (truthy (getFunctionExpression component)).
    + destruct (getFunctionExpression component) as [| | | | |g| |];
        try discriminate.
      destruct (call_result _ g _) as [slot|e]; [|discriminate].
      destruct (renderSlot_result _ slot); [|discriminate].
      intros [= <- <- <-]. left. eauto.
    + destruct (renderSlot_result _ (VFun f)); [|discriminate].
      intros [= <- <- <-]. left. eauto.
  - destruct (renderSlot_result h (get m name)) as [res|e]; [|discriminate].
    intros [= <- <- <-]. right. eauto.
  - destruct (get m name) as [| | | | |f| |]; try discriminate.
    destruct (call_result h f []) as [component|e]; [|discriminate].
    destruct (truthy (getFunctionExpression component)).
    + destruct (getFunctionExpression component) as [| | | | |g| |];
        try discriminate.
      destruct (call_result _ g _) as [slot|e]; [|discriminate].
      destruct (renderSlot_result _ slot); [|discriminate].
      intros [= <- <- <-]. left. eauto.
    + destruct (renderSlot_result _ (VFun f)); [|discriminate].
      intros [= <- <- <-]. left. eauto.
Qed.

(** X7: [render] returns a string, [null] or [undefined], never another
    kind of value, and keeps the cache to such values: if the cache holds
    only strings, [null] and [undefined] before a call, so does it after,
    and so is the result. *)
Theorem render_returns_text (this : Slots) name args h v this' h' :
  (forall k x, cache this !! k = Some x -> textual x = true) ->
  render this name args h = (Normal (v, this'), h') ->
  textual v = true /\
  (forall k x, cache this' !! k = Some x -> textual x = true).
Proof.
  intros Hcache Hrender.
  destruct (render_returns _ _ _ _ _ _ _ Hrender)
    as [[-> Hv]|[-> [res ->]]].
  - split; [|exact Hcache].
    destruct Hv as [->|[Hv|[res ->]]];
      [done|by eapply Hcache|apply textual_stringify_result].
  - split; [apply textual_stringify_result|].
    intros k x. simpl. destruct (decide (name = k)) as [->|Hne].
    + rewrite lookup_insert_eq. intros [= <-]. apply textual_stringify_result.
    + rewrite lookup_insert_ne by done. apply Hcache.
Qed.

Lemma this_defines_false own key :
  ~ In key own -> ~ In key inherited_properties -> this_defines own key = false.
Proof.
  intros Hown Hinh. unfold this_defines. apply orb_false_iff.
  split; apply not_true_is_false; intros [k [Hk Heq]]%existsb_exists;
    apply String.eqb_eq in Heq; by subst.
Qed.

Lemma define_slot_properties_accepts keys : forall own,
  NoDup (own ++ keys) ->
  (forall k, In k keys -> ~ In k inherited_properties) ->
  define_slot_properties own keys = Normal (own ++ keys).
Proof.
  induction keys as [|k keys IH]; intros own Hnd Hfree; simpl.
  - by rewrite app_nil_r.
  - rewrite this_defines_false.
    + rewrite IH; [by rewrite <- app_assoc|by rewrite <- app_assoc|].
      intros k' Hk'. apply Hfree. by right.
    + apply NoDup_app in Hnd as (_ & Hdisj & _). intros Hin.
      apply (Hdisj k); [by apply list_elem_of_In|left].
    + apply Hfree. by left.
Qed.

(** X8: a slot map none of whose keys is the name of a property the
    object inherits is accepted: the constructor returns an object with
    that slot map, one own property per key in key order, and an empty
    cache. *)
Theorem constructor_accepts_free_names (result : SSRResult) m :
  NoDup (Object_keys m) ->
  (forall k, In k (Object_keys m) -> ~ In k inherited_properties) ->
  Slots_constructor result (Some m) =
    Normal {| cache := ∅; result := result; slots := Some m;
              own_properties := Object_keys m |}.
Proof.
  intros Hnd Hfree. unfold Slots_constructor.
  by rewrite (define_slot_properties_accepts _ [] Hnd Hfree).
Qed.

Lemma define_slot_properties_first before : forall own key after,
  NoDup (own ++ before) ->
  (forall k, In k before -> ~ In k inherited_properties) ->
  In key inherited_properties ->
  define_slot_properties own (before ++ key :: after)
    = Throw (Error (reserved_slot_message key)).
Proof.
  induction before as [|k before IH]; intros own key after Hnd Hfree Hkey; simpl.
  - by rewrite RenderFacts.this_defines_inherited.
  - rewrite this_defines_false.
    + apply IH; [by rewrite <- app_assoc| |done].
      intros k' Hk'. apply Hfree. by right.
    + apply NoDup_app in Hnd as (_ & Hdisj & _). intros Hin.
      apply (Hdisj k); [by apply list_elem_of_In|left].
    + apply Hfree. by left.
Qed.

(** X9: the error of the constructor names the first key, in the order
    of [Object.keys], that is the name of an inherited property; the keys
    after it are not looked at. *)
Theorem constructor_names_first_reserved (result : SSRResult) m before key after :
  Object_keys m = before ++ key :: after ->
  NoDup before ->
  (forall k, In k before -> ~ In k inherited_properties) ->
  In key inherited_properties ->
  Slots_constructor result (Some m) = Throw (Error (reserved_slot_message key)).
Proof.
  intros Hkeys Hnd Hfree Hkey. unfold Slots_constructor. rewrite Hkeys.
  by rewrite (define_slot_properties_first before [] key after Hnd Hfree Hkey).
Qed.

(** X10: with arguments, a slot whose single embedded expression is
    truthy but not a function makes [render] throw a [TypeError] right
    after the slot function was called; nothing is handed to the
    renderer. *)
Theorem render_with_args_not_callable (this : Slots) m name args f component x h :
  args <> [] ->
  slots this = Some m ->
  get m name = VFun f ->
  call_result h f [] = Normal component ->
  get_prop component "expressions" = VArr [x] ->
  truthy x = true ->
  is_function x = false ->
  render this name args h =
    (Throw (TypeError "is not a function"), h ++ [EvCall f []]).
Proof.
  intros Hargs Hm Hf Hcomp Hexpr Htruthy Hfun.
  unfold Render.render. rewrite Hm.
  destruct args as [|a args]; [done|]. simpl.
  unfold has. rewrite Hm, Hf. simpl.
  unfold bind, call, ret. rewrite Hcomp.
  assert (Htr : truthy component = true).
  { destruct component; simpl in Hexpr; try discriminate; reflexivity. }
  unfold getFunctionExpression. rewrite Htr, Hexpr. simpl. rewrite Htruthy.
  by destruct x.
Qed.

Lemma Object_prototype_truthy name member :
  assoc Object_prototype name = Some member -> truthy member = true.
Proof.
  assert (Hall : Forall (fun kv => truthy kv.2 = true) Object_prototype)
    by (repeat constructor).
  induction Hall as [|[k x] l Hx _ IH]; simpl; [done|].
  destruct (String.eqb k name); [by intros [= <-]|exact IH].
Qed.

(** X26: a name the slot map does not have as its own but inherits from
    [Object.prototype], [toString] for one, counts as a slot: [has] is
    true, and [render] without arguments hands the inherited member to
    the renderer and caches what it gets. *)
Theorem inherited_member_is_a_slot (this : Slots) m name member res h :
  slots this = Some m ->
  assoc m name = None ->
  assoc Object_prototype name = Some member ->
  cache this !! name = None ->
  renderSlot_result h member = Normal res ->
  has this name = true /\
  render this name [] h =
    (Normal (stringify_result res, cache_set this name (stringify_result res)),
     h ++ [EvRenderSlot member]).
Proof.
  intros Hm Hown Hmember Hcache Hres.
  assert (Hget : get m name = member) by (unfold get; by rewrite Hown, Hmember).
  assert (Hhas : has this name = true).
  { unfold has. rewrite Hm, Hget. by eapply Object_prototype_truthy. }
  split; [exact Hhas|].
  unfold Render.render. rewrite Hm, Hcache, Hhas. simpl.
  unfold bind, ret, renderSlot. by rewrite Hget, Hres.
Qed.

(** X11: with [legacyBuild = true], [Astro.resolve(path)] is the call
    [astroGlobal.resolve(path)]: that call is the one event, its outcome
    is the outcome, and no warning is emitted. *)
Theorem legacy_resolve_delegates (args : CreateResultArgs) result astroGlobal
    props slots Astro g path h :
  createResult args = Normal result ->
  createAstro result astroGlobal props slots = Normal Astro ->
  legacyBuild args = true ->
  get_prop astroGlobal "resolve" = VFun g ->
  Astro_resolve Astro path h =
    (call_result h g [VStr path], h ++ [EvCall g [VStr path]]).
Proof.
  intros Hres HAstro Hlegacy Hg.
  pose proof (RenderFacts.createResult_args _ _ _ _ Hres) as Hargs.
  unfold Render.createAstro in HAstro.
  destruct (Slots_constructor result slots); [|discriminate].
  inversion HAstro; subst Astro; clear HAstro. simpl.
  rewrite Hargs. unfold resolve_shim. rewrite Hlegacy. simpl.
  by rewrite Hg.
Qed.

End Facts.

(** *** The theorems at concrete inputs *)

Lemma no_slot_map_renders_nothing_witness :
  has MoreExamples.without_slots "default" = false /\
  Render.render Examples.call_result Examples.renderSlot_result Examples.String_
    MoreExamples.without_slots "default" [VNum 1] []
  = (Normal (VUndefined, MoreExamples.without_slots), []).
Proof.
  apply (no_slot_map_renders_nothing Examples.call_result
           Examples.renderSlot_result Examples.String_
           MoreExamples.without_slots "default" [VNum 1] []).
  reflexivity.
Defined.

Lemma missing_slot_renders_nothing_witness :
  has Examples.this "header" = false /\
  Render.render Examples.call_result Examples.renderSlot_result Examples.String_
    Examples.this "header" [] []
  = (Normal (VUndefined, Examples.this), []).
Proof.
  apply (missing_slot_renders_nothing Examples.call_result
           Examples.renderSlot_result Examples.String_
           Examples.this Examples.slot_map "header" [] []); reflexivity.
Defined.

Lemma render_with_args_falls_back_witness :
  Render.render Examples.call_result Examples.renderSlot_result Examples.String_
    (with_cache MoreExamples.with_footer {["footer" := VStr "cached"]}) "footer"
    [VNum 1] []
  = (Normal (VStr "<p>hi</p>",
             with_cache MoreExamples.with_footer {["footer" := VStr "cached"]}),
     [EvCall 3 []; EvRenderSlot (VFun 3)]).
Proof.
  apply (render_with_args_falls_back Examples.call_result
           Examples.renderSlot_result Examples.String_
           MoreExamples.with_footer MoreExamples.footer_map "footer" [VNum 1]
           3%positive VUndefined (VStr "<p>hi</p>") []
           {["footer" := VStr "cached"]});
    [discriminate|reflexivity..].
Defined.

Lemma render_with_args_ignores_cache_witness :
  Render.render Examples.call_result Examples.renderSlot_result Examples.String_
    (with_cache Examples.this {["default" := VStr "cached"]}) "default"
    [VNum 1] []
  = (match (Render.render Examples.call_result Examples.renderSlot_result
              Examples.String_ Examples.this "default" [VNum 1] []).1 with
     | Normal (v, _) =>
         Normal (v, with_cache Examples.this {["default" := VStr "cached"]})
     | Throw e => Throw e
     end,
     (Render.render Examples.call_result Examples.renderSlot_result
        Examples.String_ Examples.this "default" [VNum 1] []).2).
Proof.
  apply (render_with_args_ignores_cache Examples.call_result
           Examples.renderSlot_result Examples.String_
           Examples.this "default" [VNum 1] []
           {["default" := VStr "cached"]}).
  discriminate.
Defined.

Lemma failed_render_is_not_cached_witness :
  Render.render Examples.call_result MoreExamples.renderSlot_flaky Examples.String_
    Examples.this "default" [] []
  = (Throw (Error "out of memory"), [EvRenderSlot (VFun 1)]) /\
  Render.render Examples.call_result MoreExamples.renderSlot_flaky Examples.String_
    Examples.this "default" [] [EvRenderSlot (VFun 1)]
  = (Normal (VStr "<p>hi</p>",
             cache_set Examples.this "default" (VStr "<p>hi</p>")),
     [EvRenderSlot (VFun 1); EvRenderSlot (VFun 1)]).
Proof.
  apply (failed_render_is_not_cached Examples.call_result
           MoreExamples.renderSlot_flaky Examples.String_
           Examples.this Examples.slot_map "default" (Error "out of memory")
           (VStr "<p>hi</p>") []); reflexivity.
Defined.

Lemma render_only_extends_cache_witness :
  cache Examples.this
    ⊆ cache (cache_set Examples.this "default" (VStr "<p>hi</p>")) /\
  (forall k, k <> "default" ->
     cache (cache_set Examples.this "default" (VStr "<p>hi</p>")) !! k
       = cache Examples.this !! k) /\
  slots (cache_set Examples.this "default" (VStr "<p>hi</p>"))
    = slots Examples.this /\
  result (cache_set Examples.this "default" (VStr "<p>hi</p>"))
    = result Examples.this /\
  own_properties (cache_set Examples.this "default" (VStr "<p>hi</p>"))
    = own_properties Examples.this.
Proof.
  apply (render_only_extends_cache Examples.call_result
           Examples.renderSlot_result Examples.String_
           Examples.this "default" [] [] (VStr "<p>hi</p>")
           (cache_set Examples.this "default" (VStr "<p>hi</p>"))
           [EvRenderSlot (VFun 1)]).
  reflexivity.
Defined.

Lemma render_returns_text_witness :
  textual (VStr "<p>hi</p>") = true /\
  (forall k x,
     cache (cache_set Examples.this "default" (VStr "<p>hi</p>")) !! k = Some x ->
     textual x = true).
Proof.
  apply (render_returns_text Examples.call_result
           Examples.renderSlot_result Examples.String_
           Examples.this "default" [] [] (VStr "<p>hi</p>")
           (cache_set Examples.this "default" (VStr "<p>hi</p>"))
           [EvRenderSlot (VFun 1)]).
  - intros k x Hk. simpl in Hk. by rewrite lookup_empty in Hk.
  - reflexivity.
Defined.

Lemma constructor_accepts_free_names_witness :
  Slots_constructor (Examples.result true false) (Some Examples.slot_map) =
    Normal {| cache := ∅; result := Examples.result true false;
              slots := Some Examples.slot_map;
              own_properties := ["default"] |}.
Proof.
  apply (constructor_accepts_free_names (Examples.result true false)
           Examples.slot_map).
  - simpl. apply NoDup_singleton.
  - simpl. intros k [<-|[]]. unfold inherited_properties. simpl.
    intuition discriminate.
Defined.

Lemma constructor_names_first_reserved_witness :
  Slots_constructor (Examples.result true false) (Some MoreExamples.reserved_map)
  = Throw (Error (reserved_slot_message "has")).
Proof.
  apply (constructor_names_first_reserved (Examples.result true false)
           MoreExamples.reserved_map ["default"] "has" ["render"]).
  - reflexivity.
  - apply NoDup_singleton.
  - simpl. intros k [<-|[]]. unfold inherited_properties. simpl.
    intuition discriminate.
  - unfold inherited_properties. simpl. tauto.
Defined.

Lemma render_with_args_not_callable_witness :
  Render.render MoreExamples.call_text Examples.renderSlot_result Examples.String_
    Examples.this "default" [VNum 1] []
  = (Throw (TypeError "is not a function"), [EvCall 1 []]).
Proof.
  apply (render_with_args_not_callable MoreExamples.call_text
           Examples.renderSlot_result Examples.String_
           Examples.this Examples.slot_map "default" [VNum 1] 1%positive
           (VObj [("expressions", VArr [VStr "text"])]) (VStr "text") []);
    [discriminate|reflexivity..].
Defined.

Lemma inherited_member_is_a_slot_witness :
  has Examples.this "toString" = true /\
  Render.render Examples.call_result Examples.renderSlot_result Examples.String_
    Examples.this "toString" [] []
  = (Normal (VStr "<p>hi</p>",
             cache_set Examples.this "toString" (VStr "<p>hi</p>")),
     [] ++ [EvRenderSlot (VFun (builtin 9))]).
Proof.
  apply (inherited_member_is_a_slot Examples.call_result
           Examples.renderSlot_result Examples.String_
           Examples.this Examples.slot_map "toString" (VFun (builtin 9))
           (VStr "<p>hi</p>") []); reflexivity.
Defined.

Lemma legacy_resolve_delegates_witness :
  exists Astro,
    Render.createAstro Examples.call_result Examples.bold Examples.isCSSRequest
      Examples.isScriptRequest (Examples.result true true)
      MoreExamples.astroGlobal (VObj []) None = Normal Astro /\
    Astro_resolve Astro "./main.css" [] =
      (Examples.call_result [] 7%positive [VStr "./main.css"],
       [EvCall 7 [VStr "./main.css"]]).
Proof.
  eexists. split; [reflexivity|].
  apply (legacy_resolve_delegates Examples.call_result Examples.bold
           Examples.isCSSRequest Examples.isScriptRequest Examples.URL_origin
           Examples.createCanonicalURL (Examples.args true true)
           (Examples.result true true) MoreExamples.astroGlobal (VObj []) None);
    reflexivity.
Defined.

End RenderExtras.

(** ** Further properties of the build plugin *)

Module PluginExtras.
Import JS JSON Plugin Hooks Conditions.

#[local] Set Warnings "-clear-no-such-hyp".

Section Facts.

Context (serializeRouteData : value -> value)
        (BEFORE_HYDRATION_SCRIPT_ID : string)
        (astroRemark : value)
        (pagesVirtualModuleId : string).

Local Abbreviation route_info := (Plugin.route_info serializeRouteData).
Local Abbreviation push_routes := (Plugin.push_routes serializeRouteData).
Local Abbreviation buildManifest :=
  (Plugin.buildManifest serializeRouteData BEFORE_HYDRATION_SCRIPT_ID astroRemark).
Local Abbreviation generateBundle :=
  (Plugin.generateBundle serializeRouteData BEFORE_HYDRATION_SCRIPT_ID astroRemark).
Local Abbreviation route_built := (Plugin.route_built serializeRouteData).
Local Abbreviation load := (Hooks.load pagesVirtualModuleId).
Local Abbreviation load_code := (Hooks.load_code pagesVirtualModuleId).
Local Abbreviation load_prefix := (Hooks.load_prefix pagesVirtualModuleId).

(** *** The hooks *)

Lemma resolved_is_not_virtual : resolvedVirtualModuleId <> virtualModuleId.
Proof. discriminate. Qed.

(** X12: the two hooks fit together.  [resolveId] answers for the
    virtual entry and for no other identifier, and its answer is the
    resolved identifier; [load] returns a module text for the resolved
    identifier and for no other.  So what [resolveId] answers is loaded,
    is not resolved again, and the virtual entry's own name is not
    loaded. *)
Theorem hooks_fit_together adapter :
  (forall id resolved,
     resolveId id = Some resolved <->
     id = virtualModuleId /\ resolved = resolvedVirtualModuleId) /\
  (forall id code,
     load adapter id = Some code <->
     id = resolvedVirtualModuleId /\ code = load_code adapter) /\
  (forall id resolved,
     resolveId id = Some resolved ->
     load adapter resolved = Some (load_code adapter) /\
     resolveId resolved = None /\
     load adapter id = None).
Proof.
  assert (Hres : forall id resolved,
            resolveId id = Some resolved <->
            id = virtualModuleId /\ resolved = resolvedVirtualModuleId).
  { intros id resolved. unfold resolveId.
    destruct (String.eqb_spec id virtualModuleId) as [->|Hne].
    - split; [by intros [= <-]|by intros [_ ->]].
    - split; [discriminate|by intros [? _]]. }
  assert (Hload : forall id code,
            load adapter id = Some code <->
            id = resolvedVirtualModuleId /\ code = load_code adapter).
  { intros id code. unfold Hooks.load.
    destruct (String.eqb_spec id resolvedVirtualModuleId) as [->|Hne].
    - split; [by intros [= <-]|by intros [_ ->]].
    - split; [discriminate|by intros [? _]]. }
  split; [exact Hres|]. split; [exact Hload|].
  intros id resolved [-> ->]%Hres. split; [by apply Hload|]. split.
  - destruct (resolveId resolvedVirtualModuleId) as [r|] eqn:Hr; [|done].
    apply Hres in Hr as [Hr _]. by apply resolved_is_not_virtual in Hr.
  - destruct (load adapter virtualModuleId) as [c|] eqn:Hc; [|done].
    apply Hload in Hc as [Hc _]. symmetry in Hc.
    by apply resolved_is_not_virtual in Hc.
Qed.

(** *** The replacement *)

Lemma strip_prefix_inside p : forall r t x,
  strip_prefix p (r +:+ t) = Some x ->
  String.length p < String.length r ->
  exists x', strip_prefix p r = Some x' /\ x = x' +:+ t /\ x' <> "".
Proof.
  induction p as [|a p IH]; intros r t x Hstrip Hlen.
  - simpl in Hstrip. injection Hstrip as <-. exists r. split; [done|].
    split; [done|]. destruct r; [simpl in Hlen; lia|done].
  - destruct r as [|b r]; [simpl in Hlen; lia|].
    simpl in Hstrip |- *. destruct (Ascii.eqb a b); [|discriminate].
    apply IH; [exact Hstrip|simpl in Hlen; lia].
Qed.

(** A match inside a text is a match of the text, whatever follows. *)
Lemma match_placeholder_inside c r t :
  String.length manifestReplace < String.length r ->
  match_placeholder (String c r) = None ->
  match_placeholder (String c (r +:+ t)) = None.
Proof.
  intros Hlen Hnone. unfold match_placeholder in *.
  destruct (is_quote c); [|reflexivity].
  destruct (strip_prefix manifestReplace (r +:+ t)) as [x|] eqn:Hstrip;
    [|reflexivity].
  destruct (strip_prefix_inside _ _ _ _ Hstrip Hlen) as (x' & Hx' & -> & Hne).
  rewrite Hx' in Hnone. destruct x' as [|q x']; [done|].
  simpl. by destruct (is_quote q).
Qed.

Lemma has_placeholder_eq s :
  has_placeholder s =
  match match_placeholder s with
  | Some _ => true
  | None =>
      match s with
      | String _ rest => has_placeholder rest
      | EmptyString => false
      end
  end.
Proof. by destruct s. Qed.

Lemma has_placeholder_here s :
  has_placeholder s = false -> match_placeholder s = None.
Proof.
  rewrite has_placeholder_eq. by destruct (match_placeholder s).
Qed.

Lemma has_placeholder_tail c s :
  has_placeholder (String c s) = false -> has_placeholder s = false.
Proof.
  rewrite has_placeholder_eq. by destruct (match_placeholder (String c s)).
Qed.

Lemma replace_placeholder_skips text pre : forall q1 q2 post,
  is_quote q1 = true -> is_quote q2 = true ->
  has_placeholder (pre +:+ String q1 manifestReplace) = false ->
  replace_placeholder (pre +:+ String q1 (manifestReplace +:+ String q2 post)) text
    = pre +:+ text +:+ post.
Proof.
  induction pre as [|c pre IH]; intros q1 q2 post H1 H2 Hfree.
  - change ("" +:+ String q1 (manifestReplace +:+ String q2 post))
      with (String q1 (manifestReplace +:+ String q2 post)).
    by rewrite PluginFacts.replace_placeholder_eq,
               PluginFacts.match_placeholder_here.
  - change (String c pre +:+ String q1 (manifestReplace +:+ String q2 post))
      with (String c (pre +:+ String q1 (manifestReplace +:+ String q2 post))).
    change (String c pre +:+ String q1 manifestReplace)
      with (String c (pre +:+ String q1 manifestReplace)) in Hfree.
    rewrite PluginFacts.replace_placeholder_eq.
    assert (Hhere : match_placeholder
                      (String c (pre +:+ String q1 (manifestReplace +:+ String q2 post)))
                    = None).
    { replace (pre +:+ String q1 (manifestReplace +:+ String q2 post))
        with ((pre +:+ String q1 manifestReplace) +:+ String q2 post).
      - apply match_placeholder_inside;
          [|by apply has_placeholder_here].
        rewrite JSONFacts.length_append. simpl. lia.
      - rewrite JSONFacts.append_assoc. reflexivity. }
    rewrite Hhere, IH; [reflexivity|done|done|].
    by eapply has_placeholder_tail.
Qed.

(** X13: only the first quoted placeholder is replaced.  When no match of
    the pattern is complete before the closing quote of an occurrence,
    the result is the code with that occurrence, quotes included,
    replaced by the text; whatever follows it is kept as it is, further
    placeholders too.  The two quotes need not be the same character. *)
Theorem only_first_placeholder_replaced text pre q1 q2 post :
  is_quote q1 = true -> is_quote q2 = true ->
  has_placeholder (pre +:+ String q1 manifestReplace) = false ->
  replace_placeholder (pre +:+ String q1 (manifestReplace +:+ String q2 post)) text
    = pre +:+ text +:+ post.
Proof. apply replace_placeholder_skips. Qed.

Lemma replace_placeholder_absent code text :
  has_placeholder code = false -> replace_placeholder code text = code.
Proof.
  induction code as [|c code IH]; intros Hfree; [reflexivity|].
  rewrite PluginFacts.replace_placeholder_eq.
  rewrite (has_placeholder_here _ Hfree), IH; [reflexivity|].
  by eapply has_placeholder_tail.
Qed.

(** X14: a chunk that contains the virtual module but no quoted
    placeholder comes out of [generateBundle] with its code unchanged:
    the manifest is not injected, and nothing reports it. *)
Theorem missing_placeholder_is_silent opts internals (σ : gmap loc object)
    bundle name modules code :
  In (name, Chunk modules code) bundle ->
  has_module modules resolvedVirtualModuleId = true ->
  has_placeholder code = false ->
  In (name, Chunk modules code) (generateBundle opts internals bundle σ).1.
Proof.
  intros Hin Hmod Hfree. unfold Plugin.generateBundle, seq.
  destruct (buildManifest opts internals σ) as [m σ']. cbn [fst snd].
  apply in_map_iff. exists (name, Chunk modules code). split; [|exact Hin].
  cbn [fst snd rewrite_chunk]. rewrite Hmod.
  by rewrite replace_placeholder_absent.
Qed.

(** X15: [generateBundle] touches nothing but the code of chunks that
    contain the virtual module.  The bundle keeps its entries, their
    names and their order; assets, and chunks without the virtual module,
    are the same afterwards. *)
Theorem generateBundle_keeps_other_entries opts internals (σ : gmap loc object)
    bundle :
  map fst (generateBundle opts internals bundle σ).1 = map fst bundle /\
  forall i name entry,
    bundle !! i = Some (name, entry) ->
    match entry with
    | Asset _ => True
    | Chunk modules _ => has_module modules resolvedVirtualModuleId = false
    end ->
    (generateBundle opts internals bundle σ).1 !! i = Some (name, entry).
Proof.
  unfold Plugin.generateBundle, seq.
  destruct (buildManifest opts internals σ) as [m σ']. cbn [fst snd]. split.
  - rewrite map_map. reflexivity.
  - intros i name entry Hi Hentry.
    change (map ?f bundle) with (f <$> bundle).
    rewrite list_lookup_fmap, Hi. simpl. f_equal. f_equal.
    destruct entry as [source|modules code]; [reflexivity|].
    simpl. by rewrite Hentry.
Qed.

(** X16: what [load] writes is what [generateBundle] rewrites.  A chunk
    whose code is the module text of [load] comes out with the manifest's
    JSON text as the argument of [_deserializeManifest], the rest of the
    text unchanged, provided the two import specifiers do not themselves
    spell a quoted placeholder. *)
Theorem loaded_module_gets_manifest adapter opts internals (σ : gmap loc object)
    bundle name modules :
  In (name, Chunk modules (load_code adapter)) bundle ->
  has_module modules resolvedVirtualModuleId = true ->
  has_placeholder (load_prefix adapter +:+ String "'" manifestReplace) = false ->
  load adapter resolvedVirtualModuleId = Some (load_code adapter) /\
  In (name,
      Chunk modules
        (load_prefix adapter +:+
         manifest_text (buildManifest opts internals σ).2
                       (buildManifest opts internals σ).1 +:+
         load_suffix adapter))
     (generateBundle opts internals bundle σ).1.
Proof.
  intros Hin Hmod Hfree. split.
  { unfold Hooks.load. by rewrite String.eqb_refl. }
  unfold Plugin.generateBundle, seq.
  destruct (buildManifest opts internals σ) as [m σ']. cbn [fst snd].
  apply in_map_iff. exists (name, Chunk modules (load_code adapter)).
  split; [|exact Hin]. cbn [fst snd rewrite_chunk]. rewrite Hmod.
  unfold Hooks.load_code.
  by rewrite (replace_placeholder_skips _ _ "'"%char "'"%char).
Qed.

Lemma has_placeholder_found pre : forall q1 q2 post,
  is_quote q1 = true -> is_quote q2 = true ->
  has_placeholder (pre +:+ String q1 (manifestReplace +:+ String q2 post)) = true.
Proof.
  induction pre as [|c pre IH]; intros q1 q2 post H1 H2;
    rewrite has_placeholder_eq.
  - change ("" +:+ String q1 (manifestReplace +:+ String q2 post))
      with (String q1 (manifestReplace +:+ String q2 post)).
    by rewrite PluginFacts.match_placeholder_here.
  - change (String c pre +:+ String q1 (manifestReplace +:+ String q2 post))
      with (String c (pre +:+ String q1 (manifestReplace +:+ String q2 post))).
    destruct (match_placeholder _); [reflexivity|]. by apply IH.
Qed.

(** X17: whatever the adapter and the identifier of the pages module,
    the module text of [load] contains the quoted placeholder that
    [generateBundle] looks for. *)
Theorem loaded_module_has_placeholder adapter :
  has_placeholder (load_code adapter) = true.
Proof. by apply has_placeholder_found. Qed.

(** *** The manifest *)

(** X18: the manifest has one route record per page, in page order; the
    record of a page has the empty string as [file], the serialized route
    of the page as [routeData], and as [links] an array with the page's
    stylesheets in the order of the set. *)
Theorem route_records_follow_pages opts internals (σ : gmap loc object) :
  Forall2
    (fun pageData info =>
       file info = "" /\
       routeData info = serializeRouteData (route pageData) /\
       forall set, σ !! css pageData = Some (OSet set) ->
         (buildManifest opts internals σ).2 !! links info = Some (OArray set))
    (eachPageData internals) (routes (buildManifest opts internals σ).1).
Proof.
  destruct (PluginFacts.buildManifest_spec serializeRouteData
              BEFORE_HYDRATION_SCRIPT_ID astroRemark opts internals σ)
    as (_ & Hall & _).
  eapply Forall2_impl; [exact Hall|].
  intros p r (Hfile & Hroute & _ & (ls & Hls & Hcss)).
  split; [exact Hfile|]. split; [exact Hroute|].
  intros set Hlook. by rewrite Hls, (Hcss set Hlook).
Qed.

(** X19: the entry-module record carries the table of the internals over.
    When the table's keys are distinct, as those of a [Map] are, every
    specifier other than [BEFORE_HYDRATION_SCRIPT_ID] maps to what the
    table maps it to, and the record's keys are the table's keys and the
    before-hydration specifier.  They stand in property order: array
    indices first, ascending.  The specifiers that are not array indices
    keep the table's order, an entry the table already has for the
    before-hydration script being overwritten at its place and a new one
    going last; so, where no specifier is an array index, the record
    lists the table's keys in the table's order. *)
Theorem entryModules_carries_entries opts internals (σ : gmap loc object) entries :
  σ !! entrySpecifierToBundleMap internals = Some (OMap entries) ->
  NoDup (map fst entries) ->
  let patched :=
    if bool_decide (BEFORE_HYDRATION_SCRIPT_ID ∈ map fst entries)
    then map fst entries
    else map fst entries ++ [BEFORE_HYDRATION_SCRIPT_ID] in
  exists props,
    (buildManifest opts internals σ).2 !! entryModules (buildManifest opts internals σ).1
      = Some (ODict props) /\
    (forall k, k <> BEFORE_HYDRATION_SCRIPT_ID -> assoc props k = assoc entries k) /\
    map fst props ≡ₚ patched /\
    in_property_order (map fst props) = true /\
    List.filter not_an_index (map fst props) = List.filter not_an_index patched /\
    (forallb not_an_index patched = true -> map fst props = patched).
Proof.
  intros Hentries Hnd patched.
  destruct (PluginFacts.buildManifest_spec serializeRouteData
              BEFORE_HYDRATION_SCRIPT_ID astroRemark opts internals σ)
    as (_ & _ & _ & (props & Hlook & _ & Hkeys & Hprops) & _).
  exists props. split; [exact Hlook|].
  rewrite (Hprops entries Hentries) in Hkeys |- *.
  assert (HP : forall key, not_an_index key = true ->
                 forall k, comes_before key k = false).
  { intros key Hkey k. unfold not_an_index, comes_before in *.
    by destruct (array_index key). }
  assert (Hperm : map fst (define_all entries) ≡ₚ map fst entries).
  { unfold define_all. by rewrite JSONFacts.fold_set_prop_keys_perm. }
  assert (Hmem : bool_decide (BEFORE_HYDRATION_SCRIPT_ID ∈ map fst (define_all entries))
                 = bool_decide (BEFORE_HYDRATION_SCRIPT_ID ∈ map fst entries)).
  { apply bool_decide_ext. by rewrite Hperm. }
  assert (Hfilter :
    List.filter not_an_index
      (map fst (set_prop (define_all entries) BEFORE_HYDRATION_SCRIPT_ID
                         no_before_hydration_script))
    = List.filter not_an_index patched).
  { rewrite JSONFacts.filter_set_prop by apply HP. rewrite Hmem.
    unfold patched, define_all.
    destruct (bool_decide _); rewrite ?List.filter_app;
      by rewrite JSONFacts.filter_fold_set_prop. }
  assert (Hpatched :
    map fst (set_prop (define_all entries) BEFORE_HYDRATION_SCRIPT_ID
                      no_before_hydration_script) ≡ₚ patched).
  { rewrite JSONFacts.set_prop_keys_perm, Hmem. unfold patched.
    destruct (bool_decide _); [done|].
    rewrite Hperm. by rewrite <- Permutation_cons_append. }
  split; [|split; [exact Hpatched|split; [|split; [exact Hfilter|]]]].
  - intros k Hk. rewrite JSONFacts.assoc_set_prop.
    destruct (String.eqb_spec BEFORE_HYDRATION_SCRIPT_ID k); [congruence|].
    unfold define_all. rewrite JSONFacts.assoc_fold_set_prop by done.
    by destruct (assoc entries k).
  - by apply JSONFacts.own_keys_spec in Hkeys as [_ Hord].
  - intros Hall. rewrite (JSONFacts.forallb_Permutation _ _ _ (symmetry Hpatched)) in Hall.
    rewrite <- (JSONFacts.filter_all _ _ Hall).
    rewrite Hfilter. apply JSONFacts.filter_all.
    by rewrite (JSONFacts.forallb_Permutation _ _ _ (symmetry Hpatched)).
Qed.

(** The store after the body of the loop for one page: two locations
    more, both new and different, nothing else. *)
Lemma route_info_alloc pageData (σ : gmap loc object) :
  let info := (route_info pageData σ).1 in
  let σ' := (route_info pageData σ).2 in
  (route_scripts info ∉ dom σ) /\ (links info ∉ dom σ) /\
  route_scripts info <> links info /\
  dom σ' = {[route_scripts info; links info]} ∪ dom σ.
Proof.
  unfold Plugin.route_info, seq, Array_from, Set_values, seq, pure, alloc.
  set (set := match σ !! scripts pageData with
              | Some (OSet elems) => elems
              | _ => []
              end).
  set (a := fresh (dom σ)).
  assert (Ha : a ∉ dom σ) by apply is_fresh.
  destruct (match hoisted pageData with
            | Some h => Array_unshift a h
            | None => fun σ => (tt, σ)
            end (<[a := OArray set]> σ)) as [[] σ2] eqn:Hrun.
  assert (Hdom2 : dom σ2 = {[a]} ∪ dom σ).
  { destruct (hoisted pageData) as [h|].
    - unfold Array_unshift in Hrun. rewrite lookup_insert_eq in Hrun.
      injection Hrun as <-. rewrite insert_insert_eq. by rewrite dom_insert_L.
    - injection Hrun as <-. by rewrite dom_insert_L. }
  simpl.
  set (b := fresh (dom σ2)).
  assert (Hb : b ∉ dom σ2) by apply is_fresh.
  rewrite dom_insert_L, Hdom2. rewrite Hdom2 in Hb.
  clearbody a b. clear Hrun Hdom2.
  split; [exact Ha|]. split; [set_solver|]. split; [set_solver|set_solver].
Qed.

Lemma push_routes_alloc pages : forall routes (σ : gmap loc object),
  exists new,
    (push_routes pages routes σ).1 = routes ++ new /\
    NoDup (flat_map (fun info => [route_scripts info; links info]) new) /\
    (forall l, l ∈ flat_map (fun info => [route_scripts info; links info]) new ->
       l ∉ dom σ) /\
    dom (push_routes pages routes σ).2 =
      list_to_set (flat_map (fun info => [route_scripts info; links info]) new)
      ∪ dom σ.
Proof.
  induction pages as [|pageData pages IH]; intros routes σ.
  - exists []. simpl. rewrite app_nil_r. split; [done|]. split; [constructor|].
    split; [by intros l ?%elem_of_nil|set_solver].
  - simpl. unfold seq.
    pose proof (route_info_alloc pageData σ) as (Hs & Hl & Hsl & Hdom).
    destruct (route_info pageData σ) as [info σ1]. simpl in Hs, Hl, Hsl, Hdom.
    destruct (IH (routes ++ [info]) σ1) as (new & Hnew & Hnd & Hfresh & Hdom').
    exists (info :: new). split; [by rewrite Hnew, <- app_assoc|].
    simpl. split; [|split].
    + apply NoDup_cons. split.
      * intros [Heq|Hin]%elem_of_cons; [done|].
        apply (Hfresh _ Hin). rewrite Hdom. set_solver.
      * apply NoDup_cons. split; [|exact Hnd].
        intros Hin. apply (Hfresh _ Hin). rewrite Hdom. set_solver.
    + intros l [Heq|[Heq|Hin]%elem_of_cons]%elem_of_cons;
        [by rewrite Heq|by rewrite Heq|].
      intros Hdomσ. apply (Hfresh _ Hin). rewrite Hdom. set_solver.
    + rewrite Hdom', Hdom. set_solver.
Qed.

(** X20: every array of the manifest and its entry-module record is an
    object of its own.  The objects [buildManifest] creates, two arrays
    per route and the record, are pairwise different, none of them
    existed before, and the store afterwards has these objects and those
    it had, no other. *)
Theorem buildManifest_creates_fresh_objects opts internals (σ : gmap loc object) :
  NoDup (created (buildManifest opts internals σ).1) /\
  (forall l, l ∈ created (buildManifest opts internals σ).1 -> σ !! l = None) /\
  dom (buildManifest opts internals σ).2 =
    list_to_set (created (buildManifest opts internals σ).1) ∪ dom σ.
Proof.
  unfold Plugin.buildManifest, seq, created.
  destruct (push_routes_alloc (eachPageData internals) [] σ)
    as (new & Hnew & Hnd & Hfresh & Hdom).
  destruct (push_routes (eachPageData internals) [] σ) as [routes σ1].
  simpl in Hnew, Hdom. subst routes.
  unfold Map_entries, Object_fromEntries, alloc, Object_set, pure. simpl.
  set (e := fresh (dom σ1)).
  assert (He : e ∉ dom σ1) by apply is_fresh.
  rewrite lookup_insert_eq. simpl. rewrite insert_insert_eq, dom_insert_L.
  rewrite Hdom in He |- *. split; [|split].
  - apply NoDup_app. split; [exact Hnd|]. split; [|apply NoDup_singleton].
    intros l Hin ->%list_elem_of_singleton. set_solver.
  - intros l [Hin|Heq%list_elem_of_singleton]%elem_of_app;
      apply not_elem_of_dom; [by apply Hfresh|subst l; set_solver].
  - rewrite list_to_set_app_L. set_solver.
Qed.

End Facts.

(** *** The theorems at concrete inputs *)

(** A code with two placeholders, the first between two different
    quotes: the second is still there afterwards. *)
Lemma only_first_placeholder_replaced_witness :
  replace_placeholder
    ("a(" +:+ String "'" (manifestReplace +:+
       String double_quote ("); b('" +:+ manifestReplace +:+ "')")))
    "{}"
  = "a(" +:+ "{}" +:+ ("); b('" +:+ manifestReplace +:+ "')").
Proof.
  apply (only_first_placeholder_replaced "{}" "a(" "'"%char double_quote
           ("); b('" +:+ manifestReplace +:+ "')")); reflexivity.
Defined.

Lemma missing_placeholder_is_silent_witness :
  In ("entry.mjs", Chunk [resolvedVirtualModuleId] "const _manifest = {};")
     (Plugin.generateBundle Examples.serializeRouteData
        Examples.BEFORE_HYDRATION_SCRIPT_ID Examples.astroRemark
        Examples.opts Examples.internals MoreExamples.bundle_plain
        Examples.store).1.
Proof.
  apply (missing_placeholder_is_silent Examples.serializeRouteData
           Examples.BEFORE_HYDRATION_SCRIPT_ID Examples.astroRemark
           Examples.opts Examples.internals Examples.store
           MoreExamples.bundle_plain "entry.mjs" [resolvedVirtualModuleId]
           "const _manifest = {};");
    [left; reflexivity|reflexivity|reflexivity].
Defined.

Lemma generateBundle_keeps_other_entries_witness :
  (Plugin.generateBundle Examples.serializeRouteData
     Examples.BEFORE_HYDRATION_SCRIPT_ID Examples.astroRemark
     Examples.opts Examples.internals Examples.bundle Examples.store).1 !! 0
  = Some ("style.css", Asset "body{}").
Proof.
  apply (proj2 (generateBundle_keeps_other_entries Examples.serializeRouteData
                  Examples.BEFORE_HYDRATION_SCRIPT_ID Examples.astroRemark
                  Examples.opts Examples.internals Examples.store
                  Examples.bundle) 0 "style.css" (Asset "body{}"));
    [reflexivity|exact I].
Defined.

Lemma loaded_module_gets_manifest_witness :
  Hooks.load MoreExamples.pagesVirtualModuleId MoreExamples.adapter
    resolvedVirtualModuleId
  = Some (Hooks.load_code MoreExamples.pagesVirtualModuleId MoreExamples.adapter) /\
  In ("entry.mjs",
      Chunk [resolvedVirtualModuleId]
        (Hooks.load_prefix MoreExamples.pagesVirtualModuleId MoreExamples.adapter +:+
         manifest_text Examples.store_after Examples.manifest +:+
         load_suffix MoreExamples.adapter))
     (Plugin.generateBundle Examples.serializeRouteData
        Examples.BEFORE_HYDRATION_SCRIPT_ID Examples.astroRemark
        Examples.opts Examples.internals MoreExamples.bundle_loaded
        Examples.store).1.
Proof.
  apply (loaded_module_gets_manifest Examples.serializeRouteData
           Examples.BEFORE_HYDRATION_SCRIPT_ID Examples.astroRemark
           MoreExamples.pagesVirtualModuleId MoreExamples.adapter
           Examples.opts Examples.internals Examples.store
           MoreExamples.bundle_loaded "entry.mjs" [resolvedVirtualModuleId]);
    [left; reflexivity|reflexivity|vm_compute; reflexivity].
Defined.

Lemma route_records_follow_pages_witness :
  Forall2
    (fun pageData info =>
       file info = "" /\
       routeData info = Examples.serializeRouteData (route pageData) /\
       forall set, Examples.store !! css pageData = Some (OSet set) ->
         Examples.store_after !! links info = Some (OArray set))
    [Examples.page1; Examples.page2] (routes Examples.manifest).
Proof.
  apply (route_records_follow_pages Examples.serializeRouteData
           Examples.BEFORE_HYDRATION_SCRIPT_ID Examples.astroRemark
           Examples.opts Examples.internals Examples.store).
Defined.

(** A table with the specifiers [b.js], [10] and [2], in this order: the
    record lists [2], [10], [b.js] and the before-hydration specifier. *)
Example example_entry_order :
  (Plugin.buildManifest Examples.serializeRouteData
     Examples.BEFORE_HYDRATION_SCRIPT_ID Examples.astroRemark
     Examples.opts Examples.internals MoreExamples.store_indexed).2
  !! entryModules
       (Plugin.buildManifest Examples.serializeRouteData
          Examples.BEFORE_HYDRATION_SCRIPT_ID Examples.astroRemark
          Examples.opts Examples.internals MoreExamples.store_indexed).1
  = Some (ODict [("2", "chunks/2.js"); ("10", "chunks/10.js");
                 ("b.js", "chunks/b.js");
                 (Examples.BEFORE_HYDRATION_SCRIPT_ID, no_before_hydration_script)]).
Proof. vm_compute. reflexivity. Qed.

Lemma entryModules_carries_entries_witness :
  exists props,
    (Plugin.buildManifest Examples.serializeRouteData
       Examples.BEFORE_HYDRATION_SCRIPT_ID Examples.astroRemark
       Examples.opts Examples.internals MoreExamples.store_indexed).2
    !! entryModules
         (Plugin.buildManifest Examples.serializeRouteData
            Examples.BEFORE_HYDRATION_SCRIPT_ID Examples.astroRemark
            Examples.opts Examples.internals MoreExamples.store_indexed).1
      = Some (ODict props) /\
    (forall k, k <> Examples.BEFORE_HYDRATION_SCRIPT_ID ->
       assoc props k = assoc MoreExamples.indexed_entries k) /\
    map fst props ≡ₚ ["b.js"; "10"; "2"; Examples.BEFORE_HYDRATION_SCRIPT_ID] /\
    in_property_order (map fst props) = true /\
    List.filter not_an_index (map fst props)
      = ["b.js"; Examples.BEFORE_HYDRATION_SCRIPT_ID] /\
    (forallb not_an_index
       ["b.js"; "10"; "2"; Examples.BEFORE_HYDRATION_SCRIPT_ID] = true ->
     map fst props = ["b.js"; "10"; "2"; Examples.BEFORE_HYDRATION_SCRIPT_ID]).
Proof.
  apply (entryModules_carries_entries Examples.serializeRouteData
           Examples.BEFORE_HYDRATION_SCRIPT_ID Examples.astroRemark
           Examples.opts Examples.internals MoreExamples.store_indexed
           MoreExamples.indexed_entries).
  - reflexivity.
  - apply (bool_decide_unpack _). vm_compute. reflexivity.
Defined.

End PluginExtras.

(** ** Properties of [__renderMarkdown] *)

Module MarkdownFacts.
Import JS Markdown Conditions.

Section Facts.

Context (import_result : history -> string -> completion value)
        (instanceof_Promise : value -> bool)
        (await_result : history -> value -> completion value)
        (call_result : history -> fid -> list value -> completion value).

Local Abbreviation find_parser :=
  (Markdown.find_parser import_result instanceof_Promise await_result).
Local Abbreviation __renderMarkdown :=
  (Markdown.__renderMarkdown import_result instanceof_Promise await_result
     call_result).

(** X21: when what is left as the renderer, after a pair in first place
    was unpacked, is neither a string nor a promise nor a function, the
    call fails with "No Markdown parser found." before anything is
    imported, awaited or called. *)
Theorem no_markdown_parser_found markdownRender pair content opts h :
  destructure_pair markdownRender = Normal pair ->
  is_string (unwrap pair).1 = false ->
  instanceof_Promise (unwrap pair).1 = false ->
  is_function (unwrap pair).1 = false ->
  __renderMarkdown markdownRender content opts h =
    (Throw (Error "No Markdown parser found."), h).
Proof.
  intros Hpair Hstr Hprom Hfun.
  unfold Markdown.__renderMarkdown, bind, lift. rewrite Hpair.
  unfold Markdown.find_parser. rewrite Hprom.
  by destruct ((unwrap pair).1).
Qed.

Lemma assoc_merged_options renderOpts opts k :
  NoDup (map fst (own_enumerable renderOpts)) ->
  NoDup (map fst (own_enumerable (or_empty opts))) ->
  assoc (merged_options renderOpts opts) k =
  match assoc (own_enumerable (or_empty opts)) k with
  | Some v => Some v
  | None => assoc (own_enumerable renderOpts) k
  end.
Proof.
  intros Hbase Hover. unfold merged_options, define_all.
  rewrite fold_left_app.
  rewrite JSONFacts.assoc_fold_set_prop by done.
  destruct (assoc (own_enumerable (or_empty opts)) k); [reflexivity|].
  rewrite JSONFacts.assoc_fold_set_prop by done.
  by destruct (assoc (own_enumerable renderOpts) k).
Qed.

(** X22: the parser is called with the content and one options object,
    in which an option of the call wins over the configured option of
    the same name, and a configured option that the call does not give
    is kept.  What [__renderMarkdown] returns is the [code] of what the
    parser returns. *)
Theorem call_options_override f renderOpts content opts h :
  instanceof_Promise (VFun f) = false ->
  NoDup (map fst (own_enumerable renderOpts)) ->
  NoDup (map fst (own_enumerable (or_empty opts))) ->
  exists merged,
    __renderMarkdown (VArr [VFun f; renderOpts]) content opts h =
      (match call_result h f [VStr content; VObj merged] with
       | Normal rendered => member rendered "code"
       | Throw e => Throw e
       end, h ++ [EvCall f [VStr content; VObj merged]]) /\
    forall k,
      assoc merged k =
      match assoc (own_enumerable (or_empty opts)) k with
      | Some v => Some v
      | None => assoc (own_enumerable renderOpts) k
      end.
Proof.
  intros Hprom Hbase Hover. exists (merged_options renderOpts opts). split.
  - unfold Markdown.__renderMarkdown, bind, lift. simpl.
    unfold Markdown.find_parser. rewrite Hprom. simpl.
    by destruct (call_result h f _).
  - intros k. by apply assoc_merged_options.
Qed.

(** X23: a pair in first place is unpacked once: its second component
    becomes the options, and what stood in second place outside is
    dropped. *)
Theorem nested_pair_takes_inner_options p inner rest content opts h :
  is_array p = false ->
  __renderMarkdown (VArr (VArr [p; inner] :: rest)) content opts h =
  __renderMarkdown (VArr [p; inner]) content opts h.
Proof.
  intros Hp. unfold Markdown.__renderMarkdown, bind, lift. simpl.
  unfold unwrap. simpl. by destruct p.
Qed.

(** X24: a renderer given as a string is imported, before anything
    else; the parser is the [default] of the module, called next with
    the content and the merged options. *)
Theorem string_parser_is_imported specifier renderOpts content opts imported f h :
  import_result h specifier = Normal imported ->
  member imported "default" = Normal (VFun f) ->
  __renderMarkdown (VArr [VStr specifier; renderOpts]) content opts h =
    (match call_result (h ++ [EvImport specifier]) f
             [VStr content; VObj (merged_options renderOpts opts)] with
     | Normal rendered => member rendered "code"
     | Throw e => Throw e
     end,
     h ++ [EvImport specifier] ++
          [EvCall f [VStr content; VObj (merged_options renderOpts opts)]]).
Proof.
  intros Himport Hdefault.
  unfold Markdown.__renderMarkdown, Markdown.find_parser, bind, lift, import_.
  simpl. rewrite Himport, Hdefault. simpl.
  rewrite <- app_assoc. by destruct (call_result _ f _).
Qed.

Lemma find_parser_events mdRender h outcome h' :
  find_parser mdRender h = (outcome, h') ->
  exists before, h' = h ++ before /\ length before <= 1 /\
    Forall (fun ev => is_call ev = false) before.
Proof.
  unfold Markdown.find_parser, bind, lift, import_, await, ret, throw.
  assert (Hone : forall ev, is_call ev = false ->
            exists before, h ++ [ev] = h ++ before /\ length before <= 1 /\
              Forall (fun ev => is_call ev = false) before).
  { intros ev Hev. exists [ev]. split; [done|]. split; [simpl; lia|].
    by constructor. }
  assert (Hnone : exists before, h = h ++ before /\ length before <= 1 /\
              Forall (fun ev => is_call ev = false) before).
  { exists []. rewrite app_nil_r. split; [done|]. split; [simpl; lia|constructor]. }
  destruct mdRender as [| | | |s|f| |];
    try (destruct (instanceof_Promise _);
         [destruct (await_result h _); intros [= <- <-]; by apply Hone
         |intros [= <- <-]; exact Hnone]).
  destruct (import_result h s); intros [= <- <-]; by apply Hone.
Qed.

(** X25: on every path the parser is called at most once, and the call
    is the last thing that happens, after at most one import or awaited
    promise; a call of [__renderMarkdown] that returns has called the
    parser. *)
Theorem parser_called_last_and_once markdownRender content opts h outcome h' :
  __renderMarkdown markdownRender content opts h = (outcome, h') ->
  exists before calls,
    h' = h ++ before ++ calls /\
    length before <= 1 /\ length calls <= 1 /\
    Forall (fun ev => is_call ev = false) before /\
    Forall (fun ev => is_call ev = true) calls /\
    (forall v, outcome = Normal v -> length calls = 1).
Proof.
  unfold Markdown.__renderMarkdown, bind, lift.
  destruct (destructure_pair markdownRender) as [pair|e].
  - destruct (find_parser (unwrap pair).1 h) as [[parser|e] h1] eqn:Hfind;
      destruct (find_parser_events _ _ _ _ Hfind) as (before & -> & Hlen & Hall).
    + unfold call, throw. destruct parser as [| | | | |f| |];
        try (intros [= <- <-]; exists before, []; rewrite app_nil_r;
             repeat split; [exact Hlen|simpl; lia|exact Hall|constructor
                           |discriminate]).
      destruct (call_result _ f _) as [rendered|e]; intros [= <- <-];
        exists before, [EvCall f [VStr content;
                                  VObj (merged_options (unwrap pair).2 opts)]];
        rewrite <- app_assoc;
        (repeat split; [exact Hlen|simpl; lia|exact Hall|by constructor]).
    + intros [= <- <-]. exists before, []. rewrite app_nil_r.
      repeat split; [exact Hlen|simpl; lia|exact Hall|constructor|discriminate].
  - intros [= <- <-]. exists [], []. rewrite app_nil_r.
    repeat split; [simpl; lia|simpl; lia|constructor|constructor|discriminate].
Qed.

End Facts.

(** *** The theorems at concrete inputs *)

(** Options given where the pair of renderer and options is expected. *)
Lemma no_markdown_parser_found_witness :
  Markdown.__renderMarkdown MoreExamples.import_result
    MoreExamples.instanceof_Promise MoreExamples.await_result
    MoreExamples.parser_result
    (VArr [VObj [("gfm", VBool true)]]) "# hi" VUndefined []
  = (Throw (Error "No Markdown parser found."), []).
Proof.
  apply (no_markdown_parser_found MoreExamples.import_result
           MoreExamples.instanceof_Promise MoreExamples.await_result
           MoreExamples.parser_result
           (VArr [VObj [("gfm", VBool true)]])
           (VObj [("gfm", VBool true)], VUndefined) "# hi" VUndefined []);
    reflexivity.
Defined.

Lemma call_options_override_witness :
  exists merged,
    Markdown.__renderMarkdown MoreExamples.import_result
      MoreExamples.instanceof_Promise MoreExamples.await_result
      MoreExamples.parser_result
      (VArr [VFun 1; VObj [("mode", VStr "md"); ("gfm", VBool true)]])
      "# hi" (VObj [("mode", VStr "mdx")]) []
    = (match MoreExamples.parser_result [] 1%positive
               [VStr "# hi"; VObj merged] with
       | Normal rendered => member rendered "code"
       | Throw e => Throw e
       end, [] ++ [EvCall 1 [VStr "# hi"; VObj merged]]) /\
    forall k,
      assoc merged k =
      match assoc [("mode", VStr "mdx")] k with
      | Some v => Some v
      | None => assoc [("mode", VStr "md"); ("gfm", VBool true)] k
      end.
Proof.
  apply (call_options_override MoreExamples.import_result
           MoreExamples.instanceof_Promise MoreExamples.await_result
           MoreExamples.parser_result 1%positive
           (VObj [("mode", VStr "md"); ("gfm", VBool true)]) "# hi"
           (VObj [("mode", VStr "mdx")]) []).
  - reflexivity.
  - apply (bool_decide_unpack _). vm_compute. reflexivity.
  - apply (bool_decide_unpack _). vm_compute. reflexivity.
Defined.

Lemma nested_pair_takes_inner_options_witness :
  Markdown.__renderMarkdown MoreExamples.import_result
    MoreExamples.instanceof_Promise MoreExamples.await_result
    MoreExamples.parser_result
    (VArr [VArr [VFun 1; VObj [("gfm", VBool true)]];
           VObj [("gfm", VBool false)]]) "# hi" VUndefined []
  = Markdown.__renderMarkdown MoreExamples.import_result
      MoreExamples.instanceof_Promise MoreExamples.await_result
      MoreExamples.parser_result
      (VArr [VFun 1; VObj [("gfm", VBool true)]]) "# hi" VUndefined [].
Proof.
  apply (nested_pair_takes_inner_options MoreExamples.import_result
           MoreExamples.instanceof_Promise MoreExamples.await_result
           MoreExamples.parser_result (VFun 1) (VObj [("gfm", VBool true)])
           [VObj [("gfm", VBool false)]] "# hi" VUndefined []).
  reflexivity.
Defined.

Lemma string_parser_is_imported_witness :
  Markdown.__renderMarkdown MoreExamples.import_result
    MoreExamples.instanceof_Promise MoreExamples.await_result
    MoreExamples.parser_result
    (VArr [VStr "@astrojs/markdown-remark"; VObj [("gfm", VBool true)]])
    "# hi" VNull []
  = (match MoreExamples.parser_result
             ([] ++ [EvImport "@astrojs/markdown-remark"]) 1%positive
             [VStr "# hi";
              VObj (merged_options (VObj [("gfm", VBool true)]) VNull)] with
     | Normal rendered => member rendered "code"
     | Throw e => Throw e
     end,
     [] ++ [EvImport "@astrojs/markdown-remark"] ++
          [EvCall 1 [VStr "# hi";
                     VObj (merged_options (VObj [("gfm", VBool true)]) VNull)]]).
Proof.
  apply (string_parser_is_imported MoreExamples.import_result
           MoreExamples.instanceof_Promise MoreExamples.await_result
           MoreExamples.parser_result "@astrojs/markdown-remark"
           (VObj [("gfm", VBool true)]) "# hi" VNull
           (VObj [("default", VFun 1)]) 1%positive []); reflexivity.
Defined.

Lemma parser_called_last_and_once_witness :
  exists before calls,
    [EvImport "@astrojs/markdown-remark";
     EvCall 1 [VStr "# hi"; VObj [("gfm", VBool true)]]]
      = [] ++ before ++ calls /\
    length before <= 1 /\ length calls <= 1 /\
    Forall (fun ev => is_call ev = false) before /\
    Forall (fun ev => is_call ev = true) calls /\
    (forall v, Normal (VStr "<p>hi</p>") = Normal v -> length calls = 1).
Proof.
  apply (parser_called_last_and_once MoreExamples.import_result
           MoreExamples.instanceof_Promise MoreExamples.await_result
           MoreExamples.parser_result
           (VArr [VStr "@astrojs/markdown-remark"; VObj [("gfm", VBool true)]])
           "# hi" VNull []).
  reflexivity.
Defined.

End MarkdownFacts.
